(** * kompute: the Manager (src/include/kompute/Manager.hpp)

    A shallow embedding of [kp::Manager], the orchestrator that creates
    tensors, algorithms and sequences on one Vulkan device and keeps weak
    references to them for bulk cleanup.

    The header holds the inline factory methods ([tensorT], the two [tensor]
    overloads, the two [algorithm] overloads) and the member declarations with
    their default initialisers.  These are translated from the source.  The
    bodies of the constructors, of [sequence], [clear] and [destroy], and the
    classes [Tensor], [Algorithm] and [Sequence] live in other files; what is
    needed of them is modelled from the specification and marked as such. *)

From stdpp Require Import base option list gmap.
From Stdlib Require Import ZArith Lia.
From Stdlib.Strings Require Import Byte.

Open Scope Z_scope.

(** ** Shared ownership: [std::shared_ptr] and [std::weak_ptr]

    Objects created with [new] and handed to a [std::shared_ptr] live in a
    store of control blocks.  A pointer, strong or weak, is the index of its
    control block; blocks are never reused, so an index names one object for
    ever.  Only strong references count in [use_count]; a weak reference is
    the bare index and is nowhere recorded in the store. *)
Module Shared.

Abbreviation Ptr := nat (only parsing).

Record Cell (A : Type) : Type := mkCell
  { use_count : nat;   (* number of owning std::shared_ptr *)
    object : A }.
Arguments mkCell {A} _ _.
Arguments use_count {A} _.
Arguments object {A} _.

Abbreviation Store A := (list (Cell A)) (only parsing).

(** [std::shared_ptr<A> p{ new A(...) }]: a fresh control block owned once. *)
Definition make_shared {A} (x : A) (s : Store A) : Ptr * Store A :=
  (length s, s ++ [mkCell 1 x]).

(** Copying a [std::shared_ptr]: one more owner. *)
Definition copy {A} (p : Ptr) (s : Store A) : Store A :=
  alter (fun c => mkCell (S (use_count c)) (object c)) p s.

(** A [std::shared_ptr] goes out of scope or is reset: one owner less.  The
    object is destroyed when the count reaches zero. *)
Definition drop {A} (p : Ptr) (s : Store A) : Store A :=
  alter (fun c => mkCell (Nat.pred (use_count c)) (object c)) p s.

(** [std::weak_ptr::expired]: [use_count() == 0]. *)
Definition expired {A} (s : Store A) (p : Ptr) : bool :=
  match s !! p with
  | Some c => bool_decide (use_count c = 0%nat)
  | None => true
  end.

(** [std::weak_ptr::lock]: the object, when it is still alive. *)
Definition lock {A} (s : Store A) (p : Ptr) : option A :=
  if expired s p then None else object <$> s !! p.

(** Mutation of the object behind a pointer (a call of a non-const member
    function through it). *)
Definition update {A} (f : A -> A) (p : Ptr) (s : Store A) : Store A :=
  alter (fun c => mkCell (use_count c) (f (object c))) p s.

End Shared.

Import Shared.

(** ** Vulkan handles and the types of Core.hpp / Tensor.hpp / Algorithm.hpp *)

(** A native Vulkan object ([vk::Instance], [vk::PhysicalDevice],
    [vk::Device], [vk::Queue]) is named by a number; a [std::shared_ptr] to it
    is [Some] handle, [nullptr] is [None]. *)
Abbreviation Handle := nat (only parsing).

(** Modelled from the spec: Tensor.hpp is not among the sources.  The storage
    class tag {device-local, host-visible/staging, device-and-host}; the
    header names [eDevice] as the default argument. *)
Inductive TensorTypes : Type := eDevice | eHost | eStorage.

(** [Tensor::TensorDataTypes]: an enumerator, kept as its value because the
    enumerators are declared in Tensor.hpp. *)
Definition TensorDataTypes : Type := Z.

(** The memory behind a [void*] together with the element count and the
    element size that travel with it. *)
Record RawData : Type := mkRawData
  { rawBytes : list byte;
    elementTotalCount : Z;
    elementMemorySize : Z }.

(** What the templates need of an element type [T]: its data type tag
    ([TensorT<T>::dataType()]), [sizeof(T)] and its object representation. *)
Class Element (T : Type) : Type :=
  { elementDataType : TensorDataTypes;
    elementSize : Z;
    elementBytes : T -> list byte }.

(** [data.data()], [data.size()] and [sizeof(T)] of a [std::vector<T>]. *)
Definition vectorData {T} `{Element T} (data : list T) : RawData :=
  {| rawBytes := concat (map elementBytes data);
     elementTotalCount := Z.of_nat (length data);
     elementMemorySize := elementSize |}.

(** Modelled from the spec: [kp::Tensor] (Tensor.hpp is not among the
    sources) keeps the device it was built against, its element count, element
    byte size, element data type and storage class. *)
Record Tensor : Type := mkTensor
  { tPhysicalDevice : option Handle;
    tDevice : option Handle;
    tData : RawData;
    tDataType : TensorDataTypes;
    tTensorType : TensorTypes }.

(** Modelled from the spec: [kp::Workgroup] (Core.hpp is not among the
    sources) is the 3-dimensional dispatch size. *)
Record Workgroup : Type := mkWorkgroup { wgX : Z; wgY : Z; wgZ : Z }.

(** The default argument [workgroup = {}]: a value-initialised, unset
    workgroup. *)
Definition Workgroup_unset : Workgroup := mkWorkgroup 0 0 0.

Definition Workgroup_is_unset (wg : Workgroup) : bool :=
  bool_decide (wgX wg = 0 /\ wgY wg = 0 /\ wgZ wg = 0).

(** Modelled from the spec: [kp::Algorithm] (Algorithm.hpp is not among the
    sources): the device, the bound tensors, the shader words, the dispatch
    workgroup and the two constant lists. *)
Record Algorithm : Type := mkAlgorithm
  { aDevice : option Handle;
    aTensors : list Ptr;
    aSpirv : list Z;
    aWorkgroup : Workgroup;
    aSpecializationConstants : RawData;
    aPushConstants : RawData }.

(** Modelled from the spec: [kp::Sequence] (Sequence.hpp is included but not
    among the sources): the device, the queue it is bound to, the queue family
    index and the timestamp capacity. *)
Record Sequence : Type := mkSequence
  { sPhysicalDevice : option Handle;
    sDevice : option Handle;
    sComputeQueue : Handle;
    sQueueIndex : Z;
    sTotalTimestamps : Z }.

(** An object on the shared store: one of the three resource kinds, and
    whether its GPU memory and handles have been released by an explicit
    [destroy()] of the resource. *)
Inductive Payload : Type :=
  | PTensor (t : Tensor)
  | PSequence (s : Sequence)
  | PAlgorithm (a : Algorithm).

Record Resource : Type := mkResource
  { payload : Payload;
    gpuReleased : bool }.

(** The part of the program state outside the Manager objects: the shared
    store, and the log of native handles that have been destroyed. *)
Record World : Type := mkWorld
  { objects : Store Resource;
    handlesDestroyed : list Handle }.

Definition new_ (x : Payload) (w : World) : Ptr * World :=
  let '(p, s) := make_shared (mkResource x false) (objects w) in
  (p, mkWorld s (handlesDestroyed w)).

(** An owner elsewhere in the program copies or gives up a shared pointer. *)
Definition share (p : Ptr) (w : World) : World :=
  mkWorld (copy p (objects w)) (handlesDestroyed w).

Definition release (p : Ptr) (w : World) : World :=
  mkWorld (drop p (objects w)) (handlesDestroyed w).

(** The tensor behind a [std::shared_ptr<Tensor>], when it is one. *)
Definition tensor_at (w : World) (p : Ptr) : option Tensor :=
  match lock (objects w) p with
  | Some (mkResource (PTensor t) _) => Some t
  | _ => None
  end.

(** Modelled from the spec: the constructor of [kp::Tensor] (Tensor.hpp is not
    among the sources), called as [new kp::Tensor(physicalDevice, device,
    data, elementTotalCount, elementMemorySize, dataType, tensorType)]; the
    tensor keeps what it is given. *)
Definition Tensor_new (physicalDevice device : option Handle) (data : list byte)
    (count size : Z) (dataType : TensorDataTypes) (tensorType : TensorTypes)
    : Tensor :=
  mkTensor physicalDevice device (mkRawData data count size) dataType tensorType.

(** Modelled from the spec: the constructor of [kp::TensorT<T>] (Tensor.hpp
    is not among the sources), called as [new kp::TensorT<T>(physicalDevice,
    device, data, tensorType)]: a tensor over the elements of the vector,
    tagged with the data type of [T]. *)
Definition TensorT_new {T} `{Element T} (physicalDevice device : option Handle)
    (data : list T) (tensorType : TensorTypes) : Tensor :=
  mkTensor physicalDevice device (vectorData data) elementDataType tensorType.

(** Modelled from the spec: the workgroup rule of the constructor of
    [kp::Algorithm], which is not among the sources.  [if workgroup is unset,
    it defaults to
    (tensors[0].elementCount, 1, 1)]; a workgroup that is set is used as it
    is.  With no first tensor to read there is nothing to default to, and the
    workgroup stays as given. *)
Definition resolveWorkgroup (w : World) (tensors : list Ptr) (workgroup : Workgroup)
    : Workgroup :=
  if Workgroup_is_unset workgroup then
    match tensors with
    | t0 :: _ =>
        match tensor_at w t0 with
        | Some t => mkWorkgroup (elementTotalCount (tData t)) 1 1
        | None => workgroup
        end
    | [] => workgroup
    end
  else workgroup.

(** Modelled from the spec: the constructor of [kp::Algorithm] (Algorithm.hpp
    is not among the sources), called as [new kp::Algorithm(device, tensors,
    spirv, workgroup, specializationConstants, pushConstants)]; it reads the
    first tensor for the default workgroup.  [aTensors] records which
    tensors the Algorithm was given; whether it also owns them is not said by
    the header or the spec, and an owner it holds is an owner elsewhere in
    the program ([Share] and [Release] below). *)
Definition Algorithm_new {S P} `{Element S} `{Element P} (w : World)
    (device : option Handle) (tensors : list Ptr) (spirv : list Z)
    (workgroup : Workgroup) (specializationConstants : list S)
    (pushConstants : list P) : Algorithm :=
  mkAlgorithm device tensors spirv (resolveWorkgroup w tensors workgroup)
    (vectorData specializationConstants) (vectorData pushConstants).

(** ** The Manager *)

(** The private members of [kp::Manager], in the order of the header. *)
Record Manager : Type := mkManager
  { mInstance : option Handle;
    mFreeInstance : bool;
    mPhysicalDevice : option Handle;
    mDevice : option Handle;
    mFreeDevice : bool;
    mManagedTensors : list Ptr;
    mManagedSequences : list Ptr;
    mManagedAlgorithms : list Ptr;
    mComputeQueueFamilyIndices : list Z;
    mComputeQueues : list Handle;
    mManageResources : bool }.

(** The default member initialisers: every pointer [nullptr], every flag
    [false], every vector empty. *)
Definition Manager_init : Manager :=
  {| mInstance := None;
     mFreeInstance := false;
     mPhysicalDevice := None;
     mDevice := None;
     mFreeDevice := false;
     mManagedTensors := [];
     mManagedSequences := [];
     mManagedAlgorithms := [];
     mComputeQueueFamilyIndices := [];
     mComputeQueues := [];
     mManageResources := false |}.

(** [this->mManagedTensors.push_back(p)] and its two siblings; the conversion
    to [std::weak_ptr] leaves the use count alone. *)
Definition push_mManagedTensors (p : Ptr) (this : Manager) : Manager :=
  {| mInstance := mInstance this;
     mFreeInstance := mFreeInstance this;
     mPhysicalDevice := mPhysicalDevice this;
     mDevice := mDevice this;
     mFreeDevice := mFreeDevice this;
     mManagedTensors := mManagedTensors this ++ [p];
     mManagedSequences := mManagedSequences this;
     mManagedAlgorithms := mManagedAlgorithms this;
     mComputeQueueFamilyIndices := mComputeQueueFamilyIndices this;
     mComputeQueues := mComputeQueues this;
     mManageResources := mManageResources this |}.

Definition push_mManagedSequences (p : Ptr) (this : Manager) : Manager :=
  {| mInstance := mInstance this;
     mFreeInstance := mFreeInstance this;
     mPhysicalDevice := mPhysicalDevice this;
     mDevice := mDevice this;
     mFreeDevice := mFreeDevice this;
     mManagedTensors := mManagedTensors this;
     mManagedSequences := mManagedSequences this ++ [p];
     mManagedAlgorithms := mManagedAlgorithms this;
     mComputeQueueFamilyIndices := mComputeQueueFamilyIndices this;
     mComputeQueues := mComputeQueues this;
     mManageResources := mManageResources this |}.

Definition push_mManagedAlgorithms (p : Ptr) (this : Manager) : Manager :=
  {| mInstance := mInstance this;
     mFreeInstance := mFreeInstance this;
     mPhysicalDevice := mPhysicalDevice this;
     mDevice := mDevice this;
     mFreeDevice := mFreeDevice this;
     mManagedTensors := mManagedTensors this;
     mManagedSequences := mManagedSequences this;
     mManagedAlgorithms := mManagedAlgorithms this ++ [p];
     mComputeQueueFamilyIndices := mComputeQueueFamilyIndices this;
     mComputeQueues := mComputeQueues this;
     mManageResources := mManageResources this |}.

(** [Manager::tensorT<T>(data, tensorType)]. *)
Definition tensorT {T} `{Element T} (data : list T) (tensorType : TensorTypes)
    (this : Manager) (w : World) : Ptr * Manager * World :=
  let '(tensor, w) :=
    new_ (PTensor (TensorT_new (mPhysicalDevice this) (mDevice this)
                     data tensorType)) w in
  let this :=
    if mManageResources this then push_mManagedTensors tensor this else this in
  (tensor, this, w).

(** [Manager::tensor(void* data, elementTotalCount, elementMemorySize,
    dataType, tensorType)]. *)
Definition tensor_raw (data : list byte) (elementTotalCount elementMemorySize : Z)
    (dataType : TensorDataTypes) (tensorType : TensorTypes)
    (this : Manager) (w : World) : Ptr * Manager * World :=
  let '(tensor, w) :=
    new_ (PTensor (Tensor_new (mPhysicalDevice this) (mDevice this) data
                     elementTotalCount elementMemorySize dataType tensorType)) w in
  let this :=
    if mManageResources this then push_mManagedTensors tensor this else this in
  (tensor, this, w).

(** [Manager::algorithm<S, P>(tensors, spirv, workgroup,
    specializationConstants, pushConstants)]. *)
Definition algorithmT {S P} `{Element S} `{Element P} (tensors : list Ptr)
    (spirv : list Z) (workgroup : Workgroup) (specializationConstants : list S)
    (pushConstants : list P) (this : Manager) (w : World)
    : Ptr * Manager * World :=
  let '(algorithm, w) :=
    new_ (PAlgorithm (Algorithm_new w (mDevice this) tensors spirv workgroup
                        specializationConstants pushConstants)) w in
  let this :=
    if mManageResources this then push_mManagedAlgorithms algorithm this
    else this in
  (algorithm, this, w).

Section Float.

(** Single-precision [float]: the Manager only stores and forwards values
    of this type. *)
Variable float : Type.
Context `{Element_float : Element float}.

(** [Manager::tensor(const std::vector<float>& data, tensorType)]. *)
Definition tensor (data : list float) (tensorType : TensorTypes)
    (this : Manager) (w : World) : Ptr * Manager * World :=
  tensorT data tensorType this w.

(** The non-template [Manager::algorithm(tensors, spirv, workgroup,
    specializationConstants, pushConstants)] over [std::vector<float>]. *)
Definition algorithm (tensors : list Ptr) (spirv : list Z)
    (workgroup : Workgroup) (specializationConstants : list float)
    (pushConstants : list float) (this : Manager) (w : World)
    : Ptr * Manager * World :=
  algorithmT tensors spirv workgroup specializationConstants pushConstants
    this w.

End Float.

Arguments tensor {float Element_float} data tensorType this w.
Arguments algorithm {float Element_float} tensors spirv workgroup
  specializationConstants pushConstants this w.

(** Modelled from the spec: the body of [Manager::sequence] is in
    Manager.cpp, which is not among the sources.  It constructs a Sequence
    bound to the selected queue and registers it iff resource management is
    enabled.  With no queue at [queueIndex] no sequence is constructed. *)
Definition sequence (queueIndex : nat) (totalTimestamps : Z)
    (this : Manager) (w : World) : option (Ptr * Manager * World) :=
  match mComputeQueues this !! queueIndex with
  | Some queue =>
      let '(sq, w) :=
        new_ (PSequence (mkSequence (mPhysicalDevice this) (mDevice this) queue
                           (default 0 (mComputeQueueFamilyIndices this !! queueIndex))
                           totalTimestamps)) w in
      let this :=
        if mManageResources this then push_mManagedSequences sq this else this in
      Some (sq, this, w)
  | None => None
  end.

(** The referent of a weak reference is still alive: the reference is not
    expired. *)
Definition alive (w : World) (p : Ptr) : Prop :=
  expired (objects w) p = false.

#[global] Instance alive_dec (w : World) (p : Ptr) : Decision (alive w p) :=
  decide (expired (objects w) p = false).

(** Modelled from the spec: the sweep of one registry collection, which
    [removes every entry whose referent has already been destroyed]. *)
Definition sweep (w : World) (entries : list Ptr) : list Ptr :=
  filter (alive w) entries.

(** Modelled from the spec: the body of [Manager::clear] is in Manager.cpp,
    which is not among the sources.  Each of the three collections is swept;
    live entries and the resources themselves are left alone. *)
Definition clear (this : Manager) (w : World) : Manager * World :=
  ({| mInstance := mInstance this;
      mFreeInstance := mFreeInstance this;
      mPhysicalDevice := mPhysicalDevice this;
      mDevice := mDevice this;
      mFreeDevice := mFreeDevice this;
      mManagedTensors := sweep w (mManagedTensors this);
      mManagedSequences := sweep w (mManagedSequences this);
      mManagedAlgorithms := sweep w (mManagedAlgorithms this);
      mComputeQueueFamilyIndices := mComputeQueueFamilyIndices this;
      mComputeQueues := mComputeQueues this;
      mManageResources := mManageResources this |}, w).

(** Modelled from the spec: the teardown state machine, Active then Destroyed
    (terminal).  The header has no member for it; the state is kept next to
    the members. *)
Inductive Lifecycle : Type := Active | Destroyed.

Record Orchestrator : Type := mkOrchestrator
  { manager : Manager;
    phase : Lifecycle }.

(** Modelled from the spec: the resource's own [destroy()], which is not
    among the sources: its GPU memory and handles are released. *)
Definition releaseResource (r : Resource) : Resource :=
  mkResource (payload r) true.

(** Modelled from the spec: draining one collection, [for every entry still
    referencing a live resource, explicitly release that resource's
    underlying GPU memory/handles]. *)
Definition drain (entries : list Ptr) (s : Store Resource) : Store Resource :=
  foldl (fun s p => if expired s p then s else update releaseResource p s)
        s entries.

(** Modelled from the spec: a native handle is released iff its ownership
    flag is true (there is nothing to release behind a null pointer). *)
Definition destroyHandle (owned : bool) (h : option Handle) (log : list Handle)
    : list Handle :=
  if owned then match h with Some x => log ++ [x] | None => log end else log.

(** Modelled from the spec: the body of [Manager::destroy] is in Manager.cpp,
    which is not among the sources.  When Active it drains the registry,
    clears the three collections, releases the logical device and the instance
    iff their ownership flags are true, and marks itself Destroyed; when
    already Destroyed it does nothing. *)
Definition destroy (o : Orchestrator) (w : World) : Orchestrator * World :=
  match phase o with
  | Destroyed => (o, w)
  | Active =>
      let this := manager o in
      let s := drain (mManagedTensors this) (objects w) in
      let s := drain (mManagedSequences this) s in
      let s := drain (mManagedAlgorithms this) s in
      let log := destroyHandle (mFreeDevice this) (mDevice this)
                   (handlesDestroyed w) in
      let log := destroyHandle (mFreeInstance this) (mInstance this) log in
      (mkOrchestrator
         {| mInstance := mInstance this;
            mFreeInstance := mFreeInstance this;
            mPhysicalDevice := mPhysicalDevice this;
            mDevice := mDevice this;
            mFreeDevice := mFreeDevice this;
            mManagedTensors := [];
            mManagedSequences := [];
            mManagedAlgorithms := [];
            mComputeQueueFamilyIndices := mComputeQueueFamilyIndices this;
            mComputeQueues := mComputeQueues this;
            mManageResources := mManageResources this |}
         Destroyed,
       mkWorld s log)
  end.

(** Modelled from the spec: the body of the adoption constructor
    [Manager(instance, physicalDevice, device)] is in Manager.cpp, which is
    not among the sources.  It accepts the caller's handles directly and both
    ownership flags are false; the other members keep their default
    initialisers. *)
Definition Manager_adopt (instance physicalDevice device : option Handle)
    : Orchestrator :=
  mkOrchestrator
    {| mInstance := instance;
       mFreeInstance := false;
       mPhysicalDevice := physicalDevice;
       mDevice := device;
       mFreeDevice := false;
       mManagedTensors := mManagedTensors Manager_init;
       mManagedSequences := mManagedSequences Manager_init;
       mManagedAlgorithms := mManagedAlgorithms Manager_init;
       mComputeQueueFamilyIndices := mComputeQueueFamilyIndices Manager_init;
       mComputeQueues := mComputeQueues Manager_init;
       mManageResources := mManageResources Manager_init |}
    Active.

(** A native handle is valid as long as nobody has destroyed it. *)
Definition handleValid (w : World) (h : Handle) : Prop :=
  h ∉ handlesDestroyed w.

(** ** Calls on a Manager *)

(** One call of a public member function.  The [float] overloads of [tensor]
    and [algorithm] are calls of [CallTensorT] and [CallAlgorithm] at
    [float]. *)
Inductive Call : Type :=
  | CallTensorT {T : Type} `{Element T} (data : list T) (tensorType : TensorTypes)
  | CallTensorRaw (data : list byte) (elementTotalCount elementMemorySize : Z)
      (dataType : TensorDataTypes) (tensorType : TensorTypes)
  | CallAlgorithm {S P : Type} `{Element S} `{Element P} (tensors : list Ptr)
      (spirv : list Z) (workgroup : Workgroup)
      (specializationConstants : list S) (pushConstants : list P)
  | CallSequence (queueIndex : nat) (totalTimestamps : Z)
  | CallClear
  | CallDestroy.

(** The calls that construct a tensor or an algorithm in the header. *)
Definition isFactory (c : Call) : bool :=
  match c with
  | CallTensorT _ _ | CallTensorRaw _ _ _ _ _ | CallAlgorithm _ _ _ _ _ => true
  | _ => false
  end.

(** The effect of a call on its Manager and on the world, with the pointer it
    returns (if it returns one). *)
Definition exec (c : Call) (o : Orchestrator) (w : World)
    : option Ptr * Orchestrator * World :=
  match c with
  | CallTensorT data tensorType =>
      let '(p, this, w) := tensorT data tensorType (manager o) w in
      (Some p, mkOrchestrator this (phase o), w)
  | CallTensorRaw data count size dataType tensorType =>
      let '(p, this, w) :=
        tensor_raw data count size dataType tensorType (manager o) w in
      (Some p, mkOrchestrator this (phase o), w)
  | CallAlgorithm tensors spirv workgroup sc pc =>
      let '(p, this, w) :=
        algorithmT tensors spirv workgroup sc pc (manager o) w in
      (Some p, mkOrchestrator this (phase o), w)
  | CallSequence queueIndex totalTimestamps =>
      match sequence queueIndex totalTimestamps (manager o) w with
      | Some (p, this, w) => (Some p, mkOrchestrator this (phase o), w)
      | None => (None, o, w)
      end
  | CallClear =>
      let '(this, w) := clear (manager o) w in
      (None, mkOrchestrator this (phase o), w)
  | CallDestroy =>
      let '(o, w) := destroy o w in (None, o, w)
  end.

(** What happens around one Manager: a call on it, or an owner elsewhere in
    the program that copies or gives up a shared pointer. *)
Inductive Step : Type :=
  | Invoke (c : Call)
  | Share (p : Ptr)
  | Release (p : Ptr).

Definition step (e : Step) (o : Orchestrator) (w : World)
    : option Ptr * Orchestrator * World :=
  match e with
  | Invoke c => exec c o w
  | Share p => (None, o, share p w)
  | Release p => (None, o, release p w)
  end.

(** A run of steps; the pointers returned by the calls are collected in call
    order. *)
Fixpoint run (es : list Step) (o : Orchestrator) (w : World)
    : list Ptr * Orchestrator * World :=
  match es with
  | [] => ([], o, w)
  | e :: es =>
      let '(r, o, w) := step e o w in
      let '(rs, o, w) := run es o w in
      (match r with Some p => p :: rs | None => rs end, o, w)
  end.

(** The calls that create a resource: the factory methods and [sequence]. *)
Definition isCreation (c : Call) : bool :=
  match c with
  | CallClear | CallDestroy => false
  | _ => true
  end.

(** Every owner elsewhere gives up the listed pointers. *)
Definition releaseAll (ps : list Ptr) (w : World) : World :=
  foldr release w ps.

(** ** Several Managers in one program *)

(** The Manager objects of the program, by address, next to the world they
    share. *)
Record System : Type := mkSystem
  { managers : gmap nat Orchestrator;
    world : World }.

(** A call through [this]. *)
Definition callOn (this : nat) (c : Call) (sys : System) : option Ptr * System :=
  match managers sys !! this with
  | Some o =>
      let '(r, o, w) := exec c o (world sys) in
      (r, mkSystem (<[this := o]> (managers sys)) w)
  | None => (None, sys)
  end.

Fixpoint callAllOn (this : nat) (cs : list Call) (sys : System)
    : list (option Ptr) * System :=
  match cs with
  | [] => ([], sys)
  | c :: cs =>
      let '(r, sys) := callOn this c sys in
      let '(rs, sys) := callAllOn this cs sys in
      (r :: rs, sys)
  end.

(** The weak references a Manager tracks, over its three collections. *)
Definition tracked (this : Manager) : list Ptr :=
  mManagedTensors this ++ mManagedSequences this ++ mManagedAlgorithms this.

(** ** Vocabulary of the statements *)

(** [after] is [before] with a weak reference to [p] appended. *)
Definition appended (p : Ptr) (before after : list Ptr) : Prop :=
  after = before ++ [p].

(** [p] names a resource constructed by the step from [w] to [w']: its control
    block did not exist before, and now holds [x], not yet released, owned by
    the one shared pointer that is returned. *)
Definition constructed (p : Ptr) (x : Payload) (w w' : World) : Prop :=
  objects w !! p = None /\
  objects w' !! p = Some (mkCell 1%nat (mkResource x false)).

(** What a factory call that registers in [mManagedTensors] guarantees. *)
Definition registersTensor (this : Manager) (w : World)
    (r : Ptr * Manager * World) : Prop :=
  let '(p, this', w') := r in
  (exists x, constructed p (PTensor x) w w') /\
  (appended p (mManagedTensors this) (mManagedTensors this')
     <-> mManageResources this = true) /\
  (mManageResources this = true ->
     mManagedSequences this' = mManagedSequences this /\
     mManagedAlgorithms this' = mManagedAlgorithms this) /\
  (mManageResources this = false -> this' = this).

(** What a factory call that registers in [mManagedAlgorithms] guarantees. *)
Definition registersAlgorithm (this : Manager) (w : World)
    (r : Ptr * Manager * World) : Prop :=
  let '(p, this', w') := r in
  (exists x, constructed p (PAlgorithm x) w w') /\
  (appended p (mManagedAlgorithms this) (mManagedAlgorithms this')
     <-> mManageResources this = true) /\
  (mManageResources this = true ->
     mManagedTensors this' = mManagedTensors this /\
     mManagedSequences this' = mManagedSequences this) /\
  (mManageResources this = false -> this' = this).

(** The call constructed an algorithm whose dispatch workgroup is [wg]. *)
Definition dispatches (wg : Workgroup) (w : World)
    (r : Ptr * Manager * World) : Prop :=
  let '(p, _, w') := r in
  exists a, constructed p (PAlgorithm a) w w' /\ aWorkgroup a = wg.

(** Two Manager values agree on every member but the three registry
    collections. *)
Definition sameContext (a b : Manager) : Prop :=
  mInstance a = mInstance b /\
  mFreeInstance a = mFreeInstance b /\
  mPhysicalDevice a = mPhysicalDevice b /\
  mDevice a = mDevice b /\
  mFreeDevice a = mFreeDevice b /\
  mComputeQueueFamilyIndices a = mComputeQueueFamilyIndices b /\
  mComputeQueues a = mComputeQueues b /\
  mManageResources a = mManageResources b.

(** The owners and the payload of the object behind a pointer. *)
Definition ownersAt (w : World) (p : Ptr) : option nat :=
  use_count <$> objects w !! p.

Definition payloadAt (w : World) (p : Ptr) : option Payload :=
  (fun c => payload (object c)) <$> objects w !! p.

(** The resource references the device context of [this]: tensors and
    sequences its physical and logical device, algorithms its logical
    device. *)
Definition boundTo (this : Manager) (x : Payload) : Prop :=
  match x with
  | PTensor t =>
      tPhysicalDevice t = mPhysicalDevice this /\ tDevice t = mDevice this
  | PSequence sq =>
      sPhysicalDevice sq = mPhysicalDevice this /\ sDevice sq = mDevice this
  | PAlgorithm a => aDevice a = mDevice this
  end.

Definition createdOn (this : Manager) (w : World) (p : Ptr) : Prop :=
  exists x, payloadAt w p = Some x /\ boundTo this x.

(** What a factory call guarantees about the device context: the resource it
    constructs is bound to the context of [this], and [this] keeps its
    context. *)
Definition constructsOn (this : Manager) (w : World)
    (r : Ptr * Manager * World) : Prop :=
  let '(p, this', w') := r in
  (exists x, constructed p x w w' /\ boundTo this x) /\
  sameContext this this'.

(** The registry collection a resource belongs to. *)
Inductive Kind : Type := KTensor | KSequence | KAlgorithm.

#[global] Instance Kind_eq_dec : EqDecision Kind.
Proof. solve_decision. Defined.

Definition kindOf (x : Payload) : Kind :=
  match x with
  | PTensor _ => KTensor
  | PSequence _ => KSequence
  | PAlgorithm _ => KAlgorithm
  end.

Definition register (k : Kind) (p : Ptr) (this : Manager) : Manager :=
  match k with
  | KTensor => push_mManagedTensors p this
  | KSequence => push_mManagedSequences p this
  | KAlgorithm => push_mManagedAlgorithms p this
  end.

(** The common shape of the creation calls: construct, register iff managed,
    return the pointer. *)
Definition create (x : Payload) (o : Orchestrator) (w : World)
    : option Ptr * Orchestrator * World :=
  (Some (new_ x w).1,
   mkOrchestrator
     (if mManageResources (manager o)
      then register (kindOf x) (new_ x w).1 (manager o) else manager o)
     (phase o),
   (new_ x w).2).

(** The number of owners of every object of the store, in store order. *)
Definition owners (w : World) : list nat := use_count <$> objects w.

(** [after] is [before] without its expired entries: nothing is added or
    reordered, every entry that is left is alive, and the live entries of
    [before] are all still there, in place. *)
Definition sweptFrom (w : World) (before after : list Ptr) : Prop :=
  after `sublist_of` before /\
  Forall (alive w) after /\
  filter (alive w) before `sublist_of` after.

(** The registry collection of one kind. *)
Definition registry (k : Kind) (this : Manager) : list Ptr :=
  match k with
  | KTensor => mManagedTensors this
  | KSequence => mManagedSequences this
  | KAlgorithm => mManagedAlgorithms this
  end.

(** Independent Managers: every weak reference a Manager tracks names a
    control block of the store, and no two Managers track the same one.  This
    holds when the Managers are constructed (their registries are empty) and
    is kept by every call. *)
Definition independent (sys : System) : Prop :=
  (forall a o, managers sys !! a = Some o ->
     Forall (fun p => (p < length (objects (world sys)))%nat)
       (tracked (manager o))) /\
  (forall a b oa ob p, a <> b ->
     managers sys !! a = Some oa -> managers sys !! b = Some ob ->
     p ∈ tracked (manager oa) -> p ∉ tracked (manager ob)).

(** The resources behind the weak references of the Manager at [other] are in
    [sys'] what they were in [sys]: each has the payload it had and is
    released or not as it was, and those that were alive are still alive. *)
Definition sameTrackedResources (other : nat) (sys sys' : System) : Prop :=
  match managers sys !! other with
  | Some ob =>
      Forall (fun p => object <$> objects (world sys') !! p
                       = object <$> objects (world sys) !! p)
        (tracked (manager ob)) /\
      Forall (alive (world sys'))
        (filter (alive (world sys)) (tracked (manager ob)))
  | None => True
  end.

(** Every native handle destroyed between [sys] and [sys'] is the logical
    device or the instance of the Manager at [this]. *)
Definition destroysOwnHandlesOnly (this : nat) (sys sys' : System) : Prop :=
  match managers sys !! this with
  | Some o =>
      Forall (fun h => h ∈ handlesDestroyed (world sys) \/
                       mDevice (manager o) = Some h \/
                       mInstance (manager o) = Some h)
        (handlesDestroyed (world sys'))
  | None => handlesDestroyed (world sys') = handlesDestroyed (world sys)
  end.

(** The system in which every Manager but the one at [this] is replaced by
    what [ms] holds. *)
Definition withOthers (ms : gmap nat Orchestrator) (this : nat) (sys : System)
    : System :=
  mkSystem
    (match managers sys !! this with
     | Some o => <[this := o]> ms
     | None => delete this ms
     end)
    (world sys).

(** ** Data for the examples *)

(** Elements that are single raw bytes, with data type tag 0. *)
#[global] Instance Element_byte : Element byte :=
  {| elementDataType := 0;
     elementSize := 1;
     elementBytes := fun b => [b] |}.

(** A Manager with resource management enabled, owning its instance 1 and
    its device 3, with one compute queue. *)
Definition managedManager : Orchestrator :=
  mkOrchestrator
    {| mInstance := Some 1%nat;
       mFreeInstance := true;
       mPhysicalDevice := Some 2%nat;
       mDevice := Some 3%nat;
       mFreeDevice := true;
       mManagedTensors := [];
       mManagedSequences := [];
       mManagedAlgorithms := [];
       mComputeQueueFamilyIndices := [0];
       mComputeQueues := [4%nat];
       mManageResources := true |}
    Active.

(** A second Manager with resource management enabled, owning an instance 5
    and a device 7 of its own, with a compute queue of its own. *)
Definition secondManager : Orchestrator :=
  mkOrchestrator
    {| mInstance := Some 5%nat;
       mFreeInstance := true;
       mPhysicalDevice := Some 6%nat;
       mDevice := Some 7%nat;
       mFreeDevice := true;
       mManagedTensors := [];
       mManagedSequences := [];
       mManagedAlgorithms := [];
       mComputeQueueFamilyIndices := [0];
       mComputeQueues := [8%nat];
       mManageResources := true |}
    Active.

(** The two Managers as constructed, each on its own device, before any
    call. *)
Definition twoFreshManagers : System :=
  mkSystem (<[0%nat := managedManager]> (<[1%nat := secondManager]> ∅))
    (mkWorld [] []).

(** The two Managers after each has created one tensor: the Manager at 0
    tracks the tensor at pointer 0, the Manager at 1 the tensor at
    pointer 1, and both tensors are alive. *)
Definition twoManagers : System :=
  (callOn 1 (CallTensorT [x03; x04]%byte eDevice)
     (callOn 0 (CallTensorT [x01; x02]%byte eDevice) twoFreshManagers).2).2.

Definition emptyWorld : World := mkWorld [] [].

(** A world that holds one live tensor of three elements at pointer 0,
    created through an unmanaged Manager. *)
Definition worldWithTensor : World :=
  (tensorT [x01; x02; x03]%byte eDevice Manager_init emptyWorld).2.

(** ** Vocabulary for runs of the factory methods *)

(** The registry collection a factory method of the header pushes to: the
    three tensor forms push to [mManagedTensors], the two algorithm forms to
    [mManagedAlgorithms]. *)
Definition factoryKind (c : Call) : option Kind :=
  match c with
  | CallTensorT _ _ | CallTensorRaw _ _ _ _ _ => Some KTensor
  | CallAlgorithm _ _ _ _ _ => Some KAlgorithm
  | _ => None
  end.

(** Of the pointers [ps] returned by the calls [cs], in call order, those
    returned by a factory method that pushes to the collection of kind [k]. *)
Definition returnedBy (k : Kind) (cs : list Call) (ps : list Ptr) : list Ptr :=
  (filter (fun cp => factoryKind cp.1 = Some k) (zip cs ps)).*2.

(** A registry in good order: no resource is tracked twice, and every entry
    names a control block of the store. *)
Definition registryWf (this : Manager) (w : World) : Prop :=
  NoDup (tracked this) /\
  Forall (fun p => (p < length (objects w))%nat) (tracked this).

(** A Manager on the same devices as [managedManager] with resource
    management disabled. *)
Definition unmanagedManager : Orchestrator :=
  mkOrchestrator
    {| mInstance := Some 1%nat;
       mFreeInstance := false;
       mPhysicalDevice := Some 2%nat;
       mDevice := Some 3%nat;
       mFreeDevice := false;
       mManagedTensors := [];
       mManagedSequences := [];
       mManagedAlgorithms := [];
       mComputeQueueFamilyIndices := [];
       mComputeQueues := [];
       mManageResources := false |}
    Active.

(** Three factory calls, one per form in the header that takes data. *)
Definition threeFactoryCalls : list Call :=
  [CallTensorT [x01; x02]%byte eDevice;
   CallAlgorithm [0%nat] [119734787] Workgroup_unset [x00]%byte [x00]%byte;
   CallTensorRaw [x07; x08]%byte 2 1 0 eHost].

(** * Properties *)

(** ** The shared store *)

Lemma app_singleton_neq {A} (l : list A) (x : A) : l ++ [x] <> l.
Proof.
  intros E. apply (f_equal length) in E. rewrite length_app in E.
  simpl in E. lia.
Qed.

Lemma make_shared_fresh {A} (x : A) (s : Store A) :
  s !! (make_shared x s).1 = None.
Proof. unfold make_shared; cbn [fst]. apply lookup_ge_None. lia. Qed.

Lemma make_shared_lookup_new {A} (x : A) (s : Store A) :
  (make_shared x s).2 !! (make_shared x s).1 = Some (mkCell 1%nat x).
Proof.
  unfold make_shared; cbn [fst snd].
  rewrite lookup_app_r by lia. by rewrite Nat.sub_diag.
Qed.

Lemma make_shared_lookup_old {A} (x : A) (s : Store A) (p : Ptr) :
  (p < length s)%nat -> (make_shared x s).2 !! p = s !! p.
Proof. intros Hp. unfold make_shared; cbn [snd]. by rewrite lookup_app_l. Qed.

Lemma new_constructed (x : Payload) (w : World) :
  constructed (new_ x w).1 x w (new_ x w).2.
Proof.
  split.
  - apply (make_shared_fresh (mkResource x false)).
  - apply (make_shared_lookup_new (mkResource x false)).
Qed.

(** ** Registration by the factory methods *)

Lemma registersTensor_new (this : Manager) (w : World) (x : Tensor) :
  registersTensor this w
    ((new_ (PTensor x) w).1,
     (if mManageResources this
      then push_mManagedTensors (new_ (PTensor x) w).1 this else this),
     (new_ (PTensor x) w).2).
Proof.
  split; [exists x; apply new_constructed|].
  unfold appended. destruct (mManageResources this) eqn:E; simpl.
  - repeat split; auto. discriminate.
  - repeat split; auto; try discriminate.
    intros H. symmetry in H. by apply app_singleton_neq in H.
Qed.

Lemma registersAlgorithm_new (this : Manager) (w : World) (x : Algorithm) :
  registersAlgorithm this w
    ((new_ (PAlgorithm x) w).1,
     (if mManageResources this
      then push_mManagedAlgorithms (new_ (PAlgorithm x) w).1 this else this),
     (new_ (PAlgorithm x) w).2).
Proof.
  split; [exists x; apply new_constructed|].
  unfold appended. destruct (mManageResources this) eqn:E; simpl.
  - repeat split; auto. discriminate.
  - repeat split; auto; try discriminate.
    intros H. symmetry in H. by apply app_singleton_neq in H.
Qed.

(** C1. Each of the four resource-creation calls ([tensorT<T>], the float
    [tensor] overload, the raw-pointer [tensor] overload and [algorithm<S,P>])
    returns a newly constructed resource and appends a weak reference to it to
    its registry collection ([mManagedTensors], resp. [mManagedAlgorithms]) if
    and only if [mManageResources] is true; when the flag is false the Manager
    is returned as it was, so no registry collection is touched. *)
Theorem factory_registers_iff_managed :
  forall (float T S P : Type) (EF : Element float) (ET : Element T)
         (ES : Element S) (EP : Element P)
         (this : Manager) (w : World)
         (data : list T) (fdata : list float) (raw : list byte)
         (count size : Z) (dataType : TensorDataTypes)
         (tensorType : TensorTypes)
         (tensors : list Ptr) (spirv : list Z) (workgroup : Workgroup)
         (sc : list S) (pc : list P),
    registersTensor this w (tensorT data tensorType this w) /\
    registersTensor this w (tensor fdata tensorType this w) /\
    registersTensor this w
      (tensor_raw raw count size dataType tensorType this w) /\
    registersAlgorithm this w
      (algorithmT tensors spirv workgroup sc pc this w).
Proof.
  intros. split; [|split; [|split]].
  - apply registersTensor_new.
  - apply (registersTensor_new this w).
  - apply registersTensor_new.
  - apply registersAlgorithm_new.
Qed.

(** ** The float overloads *)

(** C9. The non-template overloads are the single-precision instances of the
    generic forms: [tensor(data, tensorType)] returns what
    [tensorT<float>(data, tensorType)] returns, and the non-template
    [algorithm] returns what [algorithm<float, float>] returns on the same
    arguments, with the same Manager and the same world afterwards. *)
Theorem float_overloads_are_float_instances :
  forall (float : Type) (EF : Element float) (this : Manager) (w : World)
         (data : list float) (tensorType : TensorTypes)
         (tensors : list Ptr) (spirv : list Z) (workgroup : Workgroup)
         (sc pc : list float),
    tensor data tensorType this w
      = tensorT (T := float) data tensorType this w /\
    algorithm tensors spirv workgroup sc pc this w
      = algorithmT (S := float) (P := float) tensors spirv workgroup sc pc
          this w.
Proof. intros. split; reflexivity. Qed.

(** ** The default workgroup *)

Lemma resolveWorkgroup_unset (w : World) (tensors : list Ptr) (t0 : Ptr)
    (t : Tensor) :
  tensors !! 0%nat = Some t0 -> tensor_at w t0 = Some t ->
  resolveWorkgroup w tensors Workgroup_unset
    = mkWorkgroup (elementTotalCount (tData t)) 1 1.
Proof.
  intros H0 Ht. destruct tensors as [|q rest]; [discriminate|].
  injection H0 as ->. unfold resolveWorkgroup. cbn. by rewrite Ht.
Qed.

(** C7. An [algorithm()] call with an unset workgroup and a tensor list whose
    first element is a live tensor constructs an Algorithm whose dispatch
    workgroup is (element count of tensors[0], 1, 1); this holds for the
    generic form and for the float overload. *)
Theorem algorithm_default_workgroup :
  forall (float S P : Type) (EF : Element float) (ES : Element S)
         (EP : Element P) (this : Manager) (w : World)
         (tensors : list Ptr) (spirv : list Z)
         (sc : list S) (pc : list P) (fsc fpc : list float)
         (t0 : Ptr) (t : Tensor),
    tensors !! 0%nat = Some t0 ->
    tensor_at w t0 = Some t ->
    dispatches (mkWorkgroup (elementTotalCount (tData t)) 1 1) w
      (algorithmT tensors spirv Workgroup_unset sc pc this w) /\
    dispatches (mkWorkgroup (elementTotalCount (tData t)) 1 1) w
      (algorithm tensors spirv Workgroup_unset fsc fpc this w).
Proof.
  intros * H0 Ht.
  split; (eexists; split; [apply new_constructed|]);
    exact (resolveWorkgroup_unset w tensors t0 t H0 Ht).
Qed.

Lemma algorithm_default_workgroup_witness :
  [0%nat] !! 0%nat = Some 0%nat /\
  (exists t, tensor_at worldWithTensor 0 = Some t /\
             elementTotalCount (tData t) = 3) /\
  dispatches (mkWorkgroup 3 1 1) worldWithTensor
    (algorithmT [0%nat] [119734787] Workgroup_unset [x2a]%byte []%byte
       Manager_init worldWithTensor).
Proof.
  split; [reflexivity|].
  split; [eexists; split; reflexivity|].
  apply (algorithm_default_workgroup byte byte byte _ _ _ Manager_init
           worldWithTensor [0%nat] [119734787] [x2a]%byte [] [] [] 0%nat
           (TensorT_new None None [x01; x02; x03]%byte eDevice));
    reflexivity.
Defined.

(** ** Teardown *)

(** C3. [destroy()] is idempotent: after a first call the Manager is
    Destroyed, and a second call returns the Manager and the world exactly as
    the first call left them; in particular the log of destroyed handles is
    the same, so no handle is released a second time. *)
Theorem destroy_idempotent :
  forall (o : Orchestrator) (w : World),
    phase (destroy o w).1 = Destroyed /\
    destroy (destroy o w).1 (destroy o w).2 = destroy o w /\
    handlesDestroyed (destroy (destroy o w).1 (destroy o w).2).2
      = handlesDestroyed (destroy o w).2.
Proof.
  intros o w.
  assert (H1 : phase (destroy o w).1 = Destroyed).
  { unfold destroy. destruct (phase o) eqn:E; [reflexivity | exact E]. }
  assert (H2 : destroy (destroy o w).1 (destroy o w).2 = destroy o w).
  { destruct (destroy o w) as [o1 w1] eqn:E. cbn [fst snd] in *.
    unfold destroy at 1. by rewrite H1. }
  split; [exact H1|]. split; [exact H2|]. by rewrite H2.
Qed.

(** ** What no call changes *)

Lemma sameContext_refl (a : Manager) : sameContext a a.
Proof. by repeat split. Qed.

Lemma sameContext_sym (a b : Manager) : sameContext a b -> sameContext b a.
Proof. unfold sameContext. intuition congruence. Qed.

Lemma sameContext_trans (a b c : Manager) :
  sameContext a b -> sameContext b c -> sameContext a c.
Proof. unfold sameContext. intuition congruence. Qed.

Lemma push_context (this : Manager) (p : Ptr) :
  sameContext this (push_mManagedTensors p this) /\
  sameContext this (push_mManagedSequences p this) /\
  sameContext this (push_mManagedAlgorithms p this).
Proof. by repeat split. Qed.

Lemma exec_context (c : Call) (o : Orchestrator) (w : World) :
  sameContext (manager o) (manager (exec c o w).1.2).
Proof.
  destruct c; cbn.
  - destruct (mManageResources (manager o)); by repeat split.
  - destruct (mManageResources (manager o)); by repeat split.
  - destruct (mManageResources (manager o)); by repeat split.
  - unfold sequence. destruct (mComputeQueues (manager o) !! queueIndex); cbn;
      [destruct (mManageResources (manager o))|]; by repeat split.
  - by repeat split.
  - unfold destroy. destruct (phase o); by repeat split.
Qed.

Lemma step_context (e : Step) (o : Orchestrator) (w : World) :
  sameContext (manager o) (manager (step e o w).1.2).
Proof.
  destruct e; [apply exec_context | apply sameContext_refl ..].
Qed.

Lemma run_cons (e : Step) (es : list Step) (o : Orchestrator) (w : World) :
  run (e :: es) o w =
    ((match (step e o w).1.1 with
      | Some p => p :: (run es (step e o w).1.2 (step e o w).2).1.1
      | None => (run es (step e o w).1.2 (step e o w).2).1.1
      end),
     (run es (step e o w).1.2 (step e o w).2).1.2,
     (run es (step e o w).1.2 (step e o w).2).2).
Proof.
  cbn [run]. destruct (step e o w) as [[r o1] w1]. cbn [fst snd].
  by destruct (run es o1 w1) as [[rs o2] w2].
Qed.

Lemma run_context (es : list Step) (o : Orchestrator) (w : World) :
  sameContext (manager o) (manager (run es o w).1.2).
Proof.
  revert o w. induction es as [|e es IH]; intros o w.
  - apply sameContext_refl.
  - rewrite run_cons. cbn [fst snd].
    eapply sameContext_trans; [apply step_context | apply IH].
Qed.

(** A Manager that owns neither handle destroys no native handle. *)
Lemma step_log_unowned (e : Step) (o : Orchestrator) (w : World) :
  mFreeInstance (manager o) = false -> mFreeDevice (manager o) = false ->
  handlesDestroyed (step e o w).2 = handlesDestroyed w.
Proof.
  intros HI HD. destruct e as [c| |]; [|reflexivity ..].
  destruct c; cbn; try reflexivity.
  - unfold sequence. by destruct (mComputeQueues (manager o) !! queueIndex).
  - unfold destroy. destruct (phase o); [|reflexivity].
    cbn. by rewrite HI, HD.
Qed.

Lemma run_log_unowned (es : list Step) (o : Orchestrator) (w : World) :
  mFreeInstance (manager o) = false -> mFreeDevice (manager o) = false ->
  handlesDestroyed (run es o w).2 = handlesDestroyed w.
Proof.
  revert o w. induction es as [|e es IH]; intros o w HI HD; [reflexivity|].
  rewrite run_cons. cbn [fst snd].
  pose proof (step_context e o w) as (_ & HI' & _ & _ & HD' & _).
  rewrite IH by congruence. by apply step_log_unowned.
Qed.

(** C4. The adoption constructor leaves both ownership flags false.
    [destroy()] on the adopted Manager, and any run of calls on it (with
    owners elsewhere copying and dropping pointers in between), destroys no
    native handle: the flags stay false, the Manager still holds the adopted
    instance and device, and every handle is as valid afterwards as it was
    before. *)
Theorem adopted_handles_survive :
  forall (instance physicalDevice device : option Handle)
         (es : list Step) (w : World) (h : Handle),
    mFreeInstance (manager (Manager_adopt instance physicalDevice device))
      = false /\
    mFreeDevice (manager (Manager_adopt instance physicalDevice device))
      = false /\
    handlesDestroyed
      (destroy (Manager_adopt instance physicalDevice device) w).2
      = handlesDestroyed w /\
    (handleValid
       (destroy (Manager_adopt instance physicalDevice device) w).2 h
     <-> handleValid w h) /\
    mFreeInstance
      (manager (run es (Manager_adopt instance physicalDevice device) w).1.2)
      = false /\
    mFreeDevice
      (manager (run es (Manager_adopt instance physicalDevice device) w).1.2)
      = false /\
    mInstance
      (manager (run es (Manager_adopt instance physicalDevice device) w).1.2)
      = instance /\
    mDevice
      (manager (run es (Manager_adopt instance physicalDevice device) w).1.2)
      = device /\
    handlesDestroyed
      (run es (Manager_adopt instance physicalDevice device) w).2
      = handlesDestroyed w /\
    (handleValid (run es (Manager_adopt instance physicalDevice device) w).2 h
     <-> handleValid w h).
Proof.
  intros.
  pose proof (run_context es (Manager_adopt instance physicalDevice device) w)
    as (HI & HFI & _ & HD & HFD & _).
  pose proof (run_log_unowned es
                (Manager_adopt instance physicalDevice device) w
                eq_refl eq_refl) as Hlog.
  unfold handleValid. rewrite Hlog.
  repeat split; try reflexivity; try (symmetry; assumption); auto.
Qed.

(** ** Unmanaged Managers *)

Lemma exec_factory_unmanaged (c : Call) (o : Orchestrator) (w : World) :
  isFactory c = true -> mManageResources (manager o) = false ->
  (exec c o w).1.2 = o.
Proof.
  intros Hc Hm. destruct o as [this ph]. cbn in Hm.
  destruct c; try discriminate; cbn; by rewrite Hm.
Qed.

Lemma run_factories_unmanaged (cs : list Call) (o : Orchestrator) (w : World) :
  forallb isFactory cs = true -> mManageResources (manager o) = false ->
  (run (map Invoke cs) o w).1.2 = o.
Proof.
  revert w. induction cs as [|c cs IH]; intros w Hcs Hm; [reflexivity|].
  cbn [forallb] in Hcs. apply andb_prop in Hcs as [Hc Hcs].
  cbn [map]. rewrite run_cons. cbn [fst snd step].
  rewrite (exec_factory_unmanaged c o w Hc Hm). by apply IH.
Qed.

(** C10. [mManageResources] is initialised to false.  On a Manager whose
    constructor has left the flag and the (empty) registry collections as
    initialised, every run of [tensorT] / [tensor] / [algorithm] calls leaves
    the Manager as it was: the three collections are still empty and no
    resource has been registered.  The same holds for one call of the float
    overloads. *)
Theorem unmanaged_never_registers :
  forall (float : Type) (EF : Element float) (o : Orchestrator) (w : World)
         (cs : list Call) (fdata fsc fpc : list float)
         (tensorType : TensorTypes) (tensors : list Ptr) (spirv : list Z)
         (workgroup : Workgroup),
    mManageResources (manager o) = mManageResources Manager_init ->
    tracked (manager o) = tracked Manager_init ->
    forallb isFactory cs = true ->
    mManageResources Manager_init = false /\
    (run (map Invoke cs) o w).1.2 = o /\
    mManagedTensors (manager (run (map Invoke cs) o w).1.2) = [] /\
    mManagedSequences (manager (run (map Invoke cs) o w).1.2) = [] /\
    mManagedAlgorithms (manager (run (map Invoke cs) o w).1.2) = [] /\
    (tensor fdata tensorType (manager o) w).1.2 = manager o /\
    (algorithm tensors spirv workgroup fsc fpc (manager o) w).1.2 = manager o.
Proof.
  intros * Hm Ht Hcs. cbn in Hm, Ht.
  rewrite (run_factories_unmanaged cs o w Hcs Hm).
  unfold tracked in Ht.
  apply app_eq_nil in Ht as [Ht Hsa]. apply app_eq_nil in Hsa as [Hs Ha].
  repeat split; try assumption; cbn; by rewrite Hm.
Qed.

Lemma unmanaged_never_registers_witness :
  mManageResources (manager (mkOrchestrator Manager_init Active))
    = mManageResources Manager_init /\
  tracked (manager (mkOrchestrator Manager_init Active))
    = tracked Manager_init /\
  forallb isFactory
    [CallTensorT [x01; x02]%byte eDevice;
     CallTensorRaw [x07]%byte 1 1 0 eHost;
     CallAlgorithm [0%nat] [] Workgroup_unset [x00]%byte [x00]%byte] = true /\
  mManagedTensors
    (manager
       (run (map Invoke
               [CallTensorT [x01; x02]%byte eDevice;
                CallTensorRaw [x07]%byte 1 1 0 eHost;
                CallAlgorithm [0%nat] [] Workgroup_unset [x00]%byte [x00]%byte])
          (mkOrchestrator Manager_init Active)
          emptyWorld).1.2) = [].
Proof.
  split; [reflexivity|]. split; [reflexivity|]. split; [reflexivity|].
  apply (unmanaged_never_registers byte _
           (mkOrchestrator Manager_init Active) emptyWorld
           [CallTensorT [x01; x02]%byte eDevice;
            CallTensorRaw [x07]%byte 1 1 0 eHost;
            CallAlgorithm [0%nat] [] Workgroup_unset [x00]%byte [x00]%byte]
           [] [] [] eDevice [] [] Workgroup_unset);
    reflexivity.
Defined.

(** ** The shape of the creation calls *)

Lemma exec_creation (c : Call) (o : Orchestrator) (w : World) :
  isCreation c = true ->
  exec c o w = (None, o, w) \/
  exists x, boundTo (manager o) x /\ exec c o w = create x o w.
Proof.
  intros Hc.
  destruct c as [T ET data tensorType
                | data elementTotalCount0 elementMemorySize0 dataType tensorType
                | S P ES EP tensors spirv workgroup
                    specializationConstants pushConstants
                | queueIndex totalTimestamps | |]; try discriminate.
  - right.
    exists (PTensor (TensorT_new (mPhysicalDevice (manager o))
                       (mDevice (manager o)) data tensorType)).
    split; [by split | reflexivity].
  - right.
    exists (PTensor (Tensor_new (mPhysicalDevice (manager o))
                       (mDevice (manager o)) data elementTotalCount0
                       elementMemorySize0 dataType tensorType)).
    split; [by split | reflexivity].
  - right.
    exists (PAlgorithm (Algorithm_new w (mDevice (manager o)) tensors spirv
                          workgroup specializationConstants pushConstants)).
    split; reflexivity.
  - cbn. unfold sequence.
    destruct (mComputeQueues (manager o) !! queueIndex) as [queue|];
      [right | by left].
    exists (PSequence (mkSequence (mPhysicalDevice (manager o))
                         (mDevice (manager o)) queue
                         (default 0 (mComputeQueueFamilyIndices (manager o)
                                       !! queueIndex))
                         totalTimestamps)).
    split; [by split | reflexivity].
Qed.

Lemma exec_factory (c : Call) (o : Orchestrator) (w : World) :
  isFactory c = true ->
  exists x, factoryKind c = Some (kindOf x) /\ exec c o w = create x o w.
Proof.
  intros Hc.
  destruct c as [T ET data tensorType
                | data count size dataType tensorType
                | S P ES EP tensors spirv workgroup sc pc
                | queueIndex totalTimestamps | |]; try discriminate Hc.
  - by exists (PTensor (TensorT_new (mPhysicalDevice (manager o))
                          (mDevice (manager o)) data tensorType)).
  - by exists (PTensor (Tensor_new (mPhysicalDevice (manager o))
                          (mDevice (manager o)) data count size dataType
                          tensorType)).
  - by exists (PAlgorithm (Algorithm_new w (mDevice (manager o)) tensors spirv
                             workgroup sc pc)).
Qed.

Lemma new_objects (x : Payload) (w : World) :
  (new_ x w).1 = length (objects w) /\
  objects (new_ x w).2 = objects w ++ [mkCell 1%nat (mkResource x false)] /\
  handlesDestroyed (new_ x w).2 = handlesDestroyed w.
Proof. by repeat split. Qed.

(** ** Payloads are fixed at construction *)

Lemma lookup_alter_payload (f : Cell Resource -> Cell Resource)
    (p q : Ptr) (s : Store Resource) :
  (forall c, payload (object (f c)) = payload (object c)) ->
  (fun c => payload (object c)) <$> alter f p s !! q
    = (fun c => payload (object c)) <$> s !! q.
Proof.
  intros Hf. rewrite list_lookup_alter. case_decide; [subst|done].
  destruct (s !! q); cbn; [by rewrite Hf | done].
Qed.

Lemma lookup_alter_owners (f : Cell Resource -> Cell Resource)
    (p q : Ptr) (s : Store Resource) :
  (forall c, use_count (f c) = use_count c) ->
  use_count <$> alter f p s !! q = use_count <$> s !! q.
Proof.
  intros Hf. rewrite list_lookup_alter. case_decide; [subst|done].
  destruct (s !! q); cbn; [by rewrite Hf | done].
Qed.

Lemma expired_update (f : Resource -> Resource) (p q : Ptr)
    (s : Store Resource) :
  expired (update f p s) q = expired s q.
Proof.
  unfold expired.
  pose proof (lookup_alter_owners
                (fun c => mkCell (use_count c) (f (object c))) p q s
                (fun _ => eq_refl)) as H.
  unfold update.
  destruct (alter _ p s !! q) as [c'|], (s !! q) as [c|]; cbn in H;
    try discriminate; [|done].
  by injection H as ->.
Qed.

Lemma drain_cons (p : Ptr) (l : list Ptr) (s : Store Resource) :
  drain (p :: l) s
    = drain l (if expired s p then s else update releaseResource p s).
Proof. reflexivity. Qed.

Lemma drain_length (l : list Ptr) (s : Store Resource) :
  length (drain l s) = length s.
Proof.
  revert s. induction l as [|p l IH]; intros s; [done|].
  rewrite drain_cons, IH. destruct (expired s p); [done|]. apply length_alter.
Qed.

Lemma drain_payload (l : list Ptr) (s : Store Resource) (q : Ptr) :
  (fun c => payload (object c)) <$> drain l s !! q
    = (fun c => payload (object c)) <$> s !! q.
Proof.
  revert s. induction l as [|p l IH]; intros s; [done|].
  rewrite drain_cons, IH. destruct (expired s p); [done|].
  by apply lookup_alter_payload.
Qed.

Lemma drain_owners (l : list Ptr) (s : Store Resource) (q : Ptr) :
  use_count <$> drain l s !! q = use_count <$> s !! q.
Proof.
  revert s. induction l as [|p l IH]; intros s; [done|].
  rewrite drain_cons, IH. destruct (expired s p); [done|].
  by apply lookup_alter_owners.
Qed.

Lemma drain_lookup_notin (l : list Ptr) (s : Store Resource) (q : Ptr) :
  q ∉ l -> drain l s !! q = s !! q.
Proof.
  revert s. induction l as [|p l IH]; intros s Hq; [done|].
  apply not_elem_of_cons in Hq as [Hne Hq].
  rewrite drain_cons, IH by done. destruct (expired s p); [done|].
  by apply list_lookup_alter_ne.
Qed.

Lemma destroy_payload (o : Orchestrator) (w : World) (q : Ptr) :
  payloadAt (destroy o w).2 q = payloadAt w q.
Proof.
  unfold destroy, payloadAt. destruct (phase o); [|done].
  cbn. by rewrite !drain_payload.
Qed.

Lemma exec_payload_stable (c : Call) (o : Orchestrator) (w : World)
    (q : Ptr) (x : Payload) :
  payloadAt w q = Some x -> payloadAt (exec c o w).2 q = Some x.
Proof.
  intros Hq. destruct (isCreation c) eqn:Hc.
  - destruct (exec_creation c o w Hc) as [-> | (y & _ & ->)]; [done|].
    unfold payloadAt in *. cbn [create snd].
    destruct (new_objects y w) as (_ & -> & _).
    destruct (objects w !! q) as [cq|] eqn:E; [|done].
    by rewrite (lookup_app_l_Some _ _ _ _ E).
  - destruct c; try discriminate Hc; cbn.
    + done.
    + pose proof (destroy_payload o w q) as H.
      destruct (destroy o w) as [o1 w1]. cbn in *. congruence.
Qed.

Lemma step_payload_stable (e : Step) (o : Orchestrator) (w : World)
    (q : Ptr) (x : Payload) :
  payloadAt w q = Some x -> payloadAt (step e o w).2 q = Some x.
Proof.
  intros Hq. destruct e as [c|p|p]; cbn.
  - by apply exec_payload_stable.
  - unfold payloadAt, share, copy. cbn.
    by rewrite lookup_alter_payload.
  - unfold payloadAt, release, drop. cbn.
    by rewrite lookup_alter_payload.
Qed.

Lemma run_payload_stable (es : list Step) (o : Orchestrator) (w : World)
    (q : Ptr) (x : Payload) :
  payloadAt w q = Some x -> payloadAt (run es o w).2 q = Some x.
Proof.
  revert o w. induction es as [|e es IH]; intros o w Hq; [done|].
  rewrite run_cons. cbn [snd]. by apply IH, step_payload_stable.
Qed.

Lemma createdOn_context (a b : Manager) (w : World) (p : Ptr) :
  sameContext a b -> createdOn a w p -> createdOn b w p.
Proof.
  intros (_ & _ & HP & HD & _) (x & Hx & Hb). exists x. split; [done|].
  destruct x; cbn in *; by rewrite <- ?HP, <- ?HD.
Qed.

(** ** One device context per Manager *)

Lemma exec_result_created (c : Call) (o : Orchestrator) (w : World) (p : Ptr) :
  (exec c o w).1.1 = Some p -> createdOn (manager o) (exec c o w).2 p.
Proof.
  intros Hr. destruct (isCreation c) eqn:Hc.
  - destruct (exec_creation c o w Hc) as [E | (y & Hy & E)];
      rewrite E in *; [discriminate|].
    unfold create in Hr. cbn [fst] in Hr. injection Hr as <-.
    exists y. split; [|done].
    destruct (new_constructed y w) as [_ Hn].
    change ((new_ y w).1) with (length (objects w)) in Hn.
    unfold payloadAt.
    change (objects (create y o w).2) with (objects (new_ y w).2).
    by rewrite Hn.
  - destruct c; try discriminate Hc; cbn in Hr.
    + discriminate Hr.
    + destruct (destroy o w). discriminate Hr.
Qed.

Lemma run_created (es : list Step) (o : Orchestrator) (w : World) :
  Forall (createdOn (manager o) (run es o w).2) (run es o w).1.1.
Proof.
  revert o w. induction es as [|e es IH]; intros o w; [by constructor|].
  rewrite run_cons. cbn [fst snd].
  assert (Hrest : Forall
            (createdOn (manager o)
               (run es (step e o w).1.2 (step e o w).2).2)
            (run es (step e o w).1.2 (step e o w).2).1.1).
  { eapply Forall_impl; [apply IH|]. intros p Hp.
    eapply createdOn_context; [|exact Hp].
    pose proof (step_context e o w) as H. unfold sameContext in *.
    intuition congruence. }
  destruct (step e o w).1.1 as [p|] eqn:Hr; [|exact Hrest].
  constructor; [|exact Hrest].
  destruct e as [c| |]; try discriminate. cbn [step] in *.
  destruct (exec_result_created c o w p Hr) as (x & Hx & Hb).
  exists x. split; [|done]. by apply run_payload_stable.
Qed.

Lemma constructsOn_create (this : Manager) (w : World) (x : Payload)
    (k : Kind) :
  boundTo this x ->
  constructsOn this w
    ((new_ x w).1,
     (if mManageResources this then register k (new_ x w).1 this else this),
     (new_ x w).2).
Proof.
  intros Hb. split; [exists x; split; [apply new_constructed | done]|].
  destruct (mManageResources this); [|apply sameContext_refl].
  destruct k; apply push_context.
Qed.

(** C6. Every factory method constructs its resource against the device
    context of the Manager it is called on: [tensorT] and both [tensor]
    overloads pass this Manager's [mPhysicalDevice] and [mDevice], both
    [algorithm] forms pass this Manager's [mDevice], and the call leaves the
    Manager's context as it was.  Hence, over every run of calls on one
    Manager (with owners elsewhere copying and dropping pointers in between),
    every resource returned by a call still references that Manager's context
    at the end of the run, and the Manager still has the same context. *)
Theorem resources_share_the_device_context :
  forall (float T S P : Type) (EF : Element float) (ET : Element T)
         (ES : Element S) (EP : Element P)
         (o : Orchestrator) (w : World) (es : list Step)
         (data : list T) (fdata fsc fpc : list float) (raw : list byte)
         (count size : Z) (dataType : TensorDataTypes)
         (tensorType : TensorTypes)
         (tensors : list Ptr) (spirv : list Z) (workgroup : Workgroup)
         (sc : list S) (pc : list P),
    constructsOn (manager o) w (tensorT data tensorType (manager o) w) /\
    constructsOn (manager o) w (tensor fdata tensorType (manager o) w) /\
    constructsOn (manager o) w
      (tensor_raw raw count size dataType tensorType (manager o) w) /\
    constructsOn (manager o) w
      (algorithmT tensors spirv workgroup sc pc (manager o) w) /\
    constructsOn (manager o) w
      (algorithm tensors spirv workgroup fsc fpc (manager o) w) /\
    Forall (createdOn (manager o) (run es o w).2) (run es o w).1.1 /\
    sameContext (manager o) (manager (run es o w).1.2).
Proof.
  intros.
  split; [|split; [|split; [|split; [|split; [|split]]]]].
  - apply (constructsOn_create (manager o) w (PTensor _) KTensor). by split.
  - apply (constructsOn_create (manager o) w (PTensor _) KTensor). by split.
  - apply (constructsOn_create (manager o) w (PTensor _) KTensor). by split.
  - apply (constructsOn_create (manager o) w (PAlgorithm _) KAlgorithm).
    reflexivity.
  - apply (constructsOn_create (manager o) w (PAlgorithm _) KAlgorithm).
    reflexivity.
  - apply run_created.
  - apply run_context.
Qed.

(** ** Weak references do not own *)

Lemma exec_length (c : Call) (o : Orchestrator) (w : World) :
  (length (objects w) <= length (objects (exec c o w).2))%nat.
Proof.
  destruct (isCreation c) eqn:Hc.
  - destruct (exec_creation c o w Hc) as [-> | (y & _ & ->)]; [done|].
    cbn [create snd]. destruct (new_objects y w) as (_ & -> & _).
    rewrite length_app. lia.
  - destruct c; try discriminate Hc; cbn; [done|].
    unfold destroy. destruct (phase o); [|done].
    cbn. by rewrite !drain_length.
Qed.

Lemma create_result (x : Payload) (o : Orchestrator) (w : World) :
  ownersAt (create x o w).2 (new_ x w).1 = Some 1%nat /\
  (if mManageResources (manager o)
   then (new_ x w).1 ∈ tracked (manager (create x o w).1.2)
   else (create x o w).1.2 = o).
Proof.
  split.
  - unfold ownersAt. cbn [create snd].
    by destruct (new_constructed x w) as [_ ->].
  - cbn [create fst snd]. destruct (mManageResources (manager o)) eqn:E.
    + unfold tracked. destruct x; cbn; set_solver.
    + by destruct o.
Qed.

Lemma expired_owners (w : World) (p : Ptr) (n : nat) :
  ownersAt w p = Some n -> expired (objects w) p = bool_decide (n = 0%nat).
Proof.
  unfold ownersAt, expired. destruct (objects w !! p); [|discriminate].
  cbn. by intros [= ->].
Qed.

Lemma release_owners (w : World) (p : Ptr) (n : nat) :
  ownersAt w p = Some n -> ownersAt (release p w) p = Some (Nat.pred n).
Proof.
  unfold ownersAt, release, drop. cbn. rewrite list_lookup_alter_eq.
  destruct (objects w !! p); [|discriminate]. cbn. by intros [= ->].
Qed.

Lemma share_owners (w : World) (p : Ptr) (n : nat) :
  ownersAt w p = Some n -> ownersAt (share p w) p = Some (S n).
Proof.
  unfold ownersAt, share, copy. cbn. rewrite list_lookup_alter_eq.
  destruct (objects w !! p); [|discriminate]. cbn. by intros [= ->].
Qed.

Lemma iter_share_owners (k : nat) (w : World) (p : Ptr) (n : nat) :
  ownersAt w p = Some n ->
  ownersAt (Nat.iter k (share p) w) p = Some (n + k)%nat.
Proof.
  intros Hn. induction k as [|k IH].
  - cbn. by rewrite Nat.add_0_r.
  - rewrite Nat.iter_succ, (share_owners _ _ _ IH). f_equal. lia.
Qed.

Lemma iter_release_owners (k : nat) (w : World) (p : Ptr) (n : nat) :
  ownersAt w p = Some n ->
  ownersAt (Nat.iter k (release p) w) p = Some (n - k)%nat.
Proof.
  intros Hn. induction k as [|k IH].
  - cbn. by rewrite Nat.sub_0_r.
  - rewrite Nat.iter_succ, (release_owners _ _ _ IH). f_equal. lia.
Qed.

(** The owners after a step are determined by the owners before, by the
    step, and by whether the Manager has a queue for a [sequence] call:
    neither the registry nor the flag enters. *)

Lemma fmap_alter_owners (f : Cell Resource -> Cell Resource) (g : nat -> nat)
    (p : Ptr) (s : Store Resource) :
  (forall c, use_count (f c) = g (use_count c)) ->
  use_count <$> alter f p s = alter g p (use_count <$> s).
Proof.
  intros Hf. apply list_eq. intros q.
  rewrite list_lookup_fmap, !list_lookup_alter, !list_lookup_fmap.
  case_decide; [|done]. destruct (s !! p); cbn; [by rewrite Hf | done].
Qed.

Lemma create_owners (x : Payload) (o : Orchestrator) (w : World) :
  owners (create x o w).2 = owners w ++ [1%nat].
Proof.
  unfold owners. cbn [create snd].
  destruct (new_objects x w) as (_ & -> & _). by rewrite fmap_app.
Qed.

Lemma destroy_owners (o : Orchestrator) (w : World) :
  owners (destroy o w).2 = owners w.
Proof.
  unfold owners, destroy. destruct (phase o); [|done]. cbn [snd objects].
  apply list_eq. intros q. rewrite !list_lookup_fmap.
  by rewrite !drain_owners.
Qed.

Lemma exec_owners_agree (c : Call) (o1 o2 : Orchestrator) (w1 w2 : World) :
  owners w1 = owners w2 ->
  length (mComputeQueues (manager o1)) = length (mComputeQueues (manager o2)) ->
  owners (exec c o1 w1).2 = owners (exec c o2 w2).2.
Proof.
  intros Hw Hq. destruct (isFactory c) eqn:Hc.
  - destruct (exec_factory c o1 w1 Hc) as (y1 & _ & ->).
    destruct (exec_factory c o2 w2 Hc) as (y2 & _ & ->).
    by rewrite !create_owners, Hw.
  - destruct c as [| | |queueIndex totalTimestamps| |];
      try discriminate Hc; cbn [exec].
    + unfold sequence.
      destruct (mComputeQueues (manager o1) !! queueIndex) as [q1|] eqn:E1;
        destruct (mComputeQueues (manager o2) !! queueIndex) as [q2|] eqn:E2.
      * unfold owners in *. cbn. by rewrite !fmap_app, Hw.
      * apply lookup_lt_Some in E1. apply lookup_ge_None in E2. lia.
      * apply lookup_ge_None in E1. apply lookup_lt_Some in E2. lia.
      * done.
    + done.
    + pose proof (destroy_owners o1 w1) as H1.
      pose proof (destroy_owners o2 w2) as H2.
      destruct (destroy o1 w1), (destroy o2 w2). cbn in *. congruence.
Qed.

Lemma step_owners_agree (e : Step) (o1 o2 : Orchestrator) (w1 w2 : World) :
  owners w1 = owners w2 ->
  length (mComputeQueues (manager o1)) = length (mComputeQueues (manager o2)) ->
  owners (step e o1 w1).2 = owners (step e o2 w2).2.
Proof.
  intros Hw Hq. destruct e as [c|p|p]; cbn [step snd].
  - by apply exec_owners_agree.
  - unfold owners, share, copy in *. cbn [objects].
    rewrite !(fmap_alter_owners _ S) by done. by rewrite Hw.
  - unfold owners, release, drop in *. cbn [objects].
    rewrite !(fmap_alter_owners _ Nat.pred) by done. by rewrite Hw.
Qed.

Lemma run_owners_agree (es : list Step) (o1 o2 : Orchestrator) (w1 w2 : World) :
  owners w1 = owners w2 ->
  length (mComputeQueues (manager o1)) = length (mComputeQueues (manager o2)) ->
  owners (run es o1 w1).2 = owners (run es o2 w2).2.
Proof.
  revert o1 o2 w1 w2.
  induction es as [|e es IH]; intros o1 o2 w1 w2 Hw Hq; [done|].
  rewrite !run_cons. cbn [snd]. apply IH.
  - by apply step_owners_agree.
  - pose proof (step_context e o1 w1) as (_&_&_&_&_&_&H1&_).
    pose proof (step_context e o2 w2) as (_&_&_&_&_&_&H2&_).
    by rewrite <- H1, <- H2.
Qed.

(** C5. The registry holds weak references only.  The resource returned by a
    call has exactly one owner, the returned shared pointer, whether or not
    the Manager has registered it (when managed, the registry does contain
    it).  What a registry holds never enters a lifetime: over any run of
    calls on the Manager, with owners elsewhere copying and dropping pointers
    in between, every object has at every point the number of owners it
    would have with any other Manager in its place that has as many queues,
    whatever that Manager's flag and registry.  When the one owner gives the
    resource up it is destroyed: the weak reference is expired and can no
    longer be locked, although the Manager, entry included, is exactly as it
    was before the owner let go.  With [k] more owners the resource has
    [k + 1] owners, is still alive when [k] of them have let go, and is
    destroyed when the last one does. *)
Theorem registry_entries_do_not_own :
  forall (c : Call) (o o2 : Orchestrator) (w : World) (p : Ptr)
         (es : list Step) (k : nat),
    (exec c o w).1.1 = Some p ->
    length (mComputeQueues (manager o2))
      = length (mComputeQueues (manager o)) ->
    ownersAt (exec c o w).2 p = Some 1%nat /\
    alive (exec c o w).2 p /\
    (if mManageResources (manager o)
     then p ∈ tracked (manager (exec c o w).1.2)
     else (exec c o w).1.2 = o) /\
    owners (run es o2 w).2 = owners (run es o w).2 /\
    (step (Release p) (exec c o w).1.2 (exec c o w).2).1.2
      = (exec c o w).1.2 /\
    expired (objects (step (Release p) (exec c o w).1.2 (exec c o w).2).2) p
      = true /\
    lock (objects (step (Release p) (exec c o w).1.2 (exec c o w).2).2) p
      = None /\
    ownersAt (Nat.iter k (share p) (exec c o w).2) p = Some (S k) /\
    alive
      (Nat.iter k (release p) (Nat.iter k (share p) (exec c o w).2)) p /\
    expired
      (objects
         (Nat.iter (S k) (release p) (Nat.iter k (share p) (exec c o w).2)))
      p = true.
Proof.
  intros * Hr Hq.
  assert (Hown : ownersAt (exec c o w).2 p = Some 1%nat /\
                 (if mManageResources (manager o)
                  then p ∈ tracked (manager (exec c o w).1.2)
                  else (exec c o w).1.2 = o)).
  { destruct (isCreation c) eqn:Hc.
    - destruct (exec_creation c o w Hc) as [E | (y & _ & E)];
        rewrite E in *; [discriminate Hr|].
      unfold create in Hr. cbn [fst] in Hr. injection Hr as <-.
      apply create_result.
    - destruct c; try discriminate Hc; cbn in Hr; [discriminate Hr|].
      destruct (destroy o w); discriminate Hr. }
  destruct Hown as [H1 Hreg].
  assert (Hexp : expired (objects (release p (exec c o w).2)) p = true).
  { pose proof (release_owners _ _ _ H1) as H0.
    by rewrite (expired_owners _ _ _ H0). }
  pose proof (iter_share_owners k _ _ _ H1) as Hk.
  pose proof (iter_release_owners k _ _ _ Hk) as Hk1.
  pose proof (iter_release_owners (S k) _ _ _ Hk) as Hk0.
  split; [exact H1|].
  split; [unfold alive; by rewrite (expired_owners _ _ _ H1)|].
  split; [exact Hreg|].
  split; [by apply run_owners_agree|].
  split; [reflexivity|].
  split; [exact Hexp|].
  split; [unfold lock; cbn [step snd]; by rewrite Hexp|].
  split; [exact Hk|].
  split.
  - unfold alive. rewrite (expired_owners _ _ _ Hk1).
    apply bool_decide_eq_false. lia.
  - rewrite (expired_owners _ _ _ Hk0).
    apply bool_decide_eq_true. lia.
Qed.

Lemma registry_entries_do_not_own_witness :
  (exec (CallTensorT [x01; x02]%byte eDevice) managedManager emptyWorld).1.1
    = Some 0%nat /\
  length (mComputeQueues (manager secondManager))
    = length (mComputeQueues (manager managedManager)) /\
  mManagedTensors
    (manager
       (exec (CallTensorT [x01; x02]%byte eDevice) managedManager
          emptyWorld).1.2) = [0%nat] /\
  expired
    (objects
       (step (Release 0)
          (exec (CallTensorT [x01; x02]%byte eDevice) managedManager
             emptyWorld).1.2
          (exec (CallTensorT [x01; x02]%byte eDevice) managedManager
             emptyWorld).2).2) 0
    = true.
Proof.
  split; [reflexivity|]. split; [reflexivity|]. split; [reflexivity|].
  apply (registry_entries_do_not_own
           (CallTensorT [x01; x02]%byte eDevice) managedManager secondManager
           emptyWorld 0%nat
           [Invoke (CallTensorT [x01]%byte eDevice); Share 0; Release 0]
           2%nat);
    reflexivity.
Defined.

(** ** The sweep *)

Lemma filter_all {A} (P : A -> Prop) `{!forall x, Decision (P x)}
    (l : list A) :
  Forall P l -> filter P l = l.
Proof.
  induction 1 as [|x l Hx _ IH]; [done|].
  by rewrite filter_cons_True, IH.
Qed.

Lemma filter_none {A} (P : A -> Prop) `{!forall x, Decision (P x)}
    (l : list A) :
  Forall (fun x => ~ P x) l -> filter P l = [].
Proof.
  induction 1 as [|x l Hx _ IH]; [done|].
  by rewrite filter_cons_False.
Qed.

Lemma sweep_sweptFrom (w : World) (l : list Ptr) : sweptFrom w l (sweep w l).
Proof.
  unfold sweptFrom, sweep, alive. split; [apply sublist_filter|]. split.
  - apply Forall_forall. intros p Hp. by apply list_elem_of_filter in Hp as [? _].
  - done.
Qed.

Lemma manager_eq (a b : Manager) :
  sameContext a b ->
  (forall k, registry k a = registry k b) ->
  a = b.
Proof.
  intros (?&?&?&?&?&?&?&?) Hk.
  pose proof (Hk KTensor). pose proof (Hk KSequence).
  pose proof (Hk KAlgorithm).
  destruct a, b; cbn in *; congruence.
Qed.

Lemma registry_tracked (k : Kind) (this : Manager) (p : Ptr) :
  p ∈ registry k this -> p ∈ tracked this.
Proof. unfold tracked. destruct k; cbn; set_solver. Qed.

Lemma registry_register (k k' : Kind) (p : Ptr) (this : Manager) :
  registry k (register k' p this) =
    registry k this ++ (if decide (k = k') then [p] else []).
Proof. destruct k, k'; cbn; by rewrite ?app_nil_r. Qed.

Lemma tracked_register (k : Kind) (p : Ptr) (this : Manager) :
  length (tracked (register k p this)) = S (length (tracked this)).
Proof. unfold tracked. destruct k; cbn; rewrite !length_app; cbn; lia. Qed.

(** ** Runs of creation calls on a managed Manager *)

Lemma create_manager (x : Payload) (o : Orchestrator) (w : World) :
  mManageResources (manager o) = true ->
  manager (create x o w).1.2 = register (kindOf x) (new_ x w).1 (manager o) /\
  mManageResources (manager (create x o w).1.2) = true.
Proof. intros Hm. cbn. rewrite Hm. split; [done|]. by destruct (kindOf x). Qed.

Lemma create_objects (x : Payload) (o : Orchestrator) (w : World) :
  objects (create x o w).2
    = objects w ++ [mkCell 1%nat (mkResource x false)].
Proof. reflexivity. Qed.

Lemma run_create (x : Payload) (es : list Step) (o : Orchestrator) (w : World) :
  (match (create x o w).1.1 with
   | Some p => p :: (run es (create x o w).1.2 (create x o w).2).1.1
   | None => (run es (create x o w).1.2 (create x o w).2).1.1
   end) = length (objects w)
            :: (run es (create x o w).1.2 (create x o w).2).1.1.
Proof. reflexivity. Qed.

Section Creations.

Variables (cs : list Call) (o : Orchestrator) (w : World).
Hypothesis managed : mManageResources (manager o) = true.
Hypothesis creations : forallb isCreation cs = true.

Lemma run_creations_phase :
  phase (run (map Invoke cs) o w).1.2 = phase o.
Proof using creations.
  clear managed. revert o w creations.
  induction cs as [|c cs' IH]; intros o w Hcs; [done|].
  cbn [forallb] in Hcs. apply andb_prop in Hcs as [Hc Hcs].
  cbn [map]. rewrite run_cons. cbn [fst snd step].
  rewrite IH by done.
  by destruct (exec_creation c o w Hc) as [-> | (y & _ & ->)].
Qed.

Lemma run_creations_registry (k : Kind) :
  exists added,
    registry k (manager (run (map Invoke cs) o w).1.2)
      = registry k (manager o) ++ added /\
    Forall (fun p => p ∈ (run (map Invoke cs) o w).1.1) added.
Proof using managed creations.
  revert o w managed creations.
  induction cs as [|c cs' IH]; intros o w Hm Hcs.
  { exists []. split; [by rewrite app_nil_r | constructor]. }
  cbn [forallb] in Hcs. apply andb_prop in Hcs as [Hc Hcs].
  cbn [map]. rewrite run_cons. cbn [fst snd step].
  destruct (exec_creation c o w Hc) as [-> | (y & _ & ->)].
  { cbn [fst snd]. by apply IH. }
  rewrite run_create.
  destruct (create_manager y o w Hm) as [Hreg Hm'].
  destruct (IH (create y o w).1.2 (create y o w).2 Hm' Hcs)
    as (added & Ha & Hin).
  rewrite Ha, Hreg, registry_register, <- app_assoc.
  eexists. split; [reflexivity|].
  apply Forall_app. split.
  - case_decide; [|by constructor].
    constructor; [|by constructor]. by left.
  - eapply Forall_impl; [exact Hin|]. intros p Hp. by right.
Qed.

Lemma run_creations_count :
  length (tracked (manager (run (map Invoke cs) o w).1.2))
    = (length (tracked (manager o))
       + length (run (map Invoke cs) o w).1.1)%nat.
Proof using managed creations.
  revert o w managed creations.
  induction cs as [|c cs' IH]; intros o w Hm Hcs.
  { cbn. lia. }
  cbn [forallb] in Hcs. apply andb_prop in Hcs as [Hc Hcs].
  cbn [map]. rewrite run_cons. cbn [fst snd step].
  destruct (exec_creation c o w Hc) as [-> | (y & _ & ->)].
  { cbn [fst snd]. by apply IH. }
  rewrite run_create.
  destruct (create_manager y o w Hm) as [Hreg Hm'].
  rewrite (IH (create y o w).1.2 (create y o w).2 Hm' Hcs).
  rewrite Hreg, tracked_register. cbn [length]. lia.
Qed.

Lemma run_creations_store :
  (run (map Invoke cs) o w).1.1
    = seq (length (objects w)) (length (run (map Invoke cs) o w).1.1) /\
  (forall q, (q < length (objects w))%nat ->
             objects (run (map Invoke cs) o w).2 !! q = objects w !! q) /\
  Forall (fun p => ownersAt (run (map Invoke cs) o w).2 p = Some 1%nat)
    (run (map Invoke cs) o w).1.1.
Proof using creations.
  clear managed. revert o w creations.
  induction cs as [|c cs' IH]; intros o w Hcs.
  { split; [done|]. split; [done | constructor]. }
  cbn [forallb] in Hcs. apply andb_prop in Hcs as [Hc Hcs].
  cbn [map]. rewrite run_cons. cbn [fst snd step].
  destruct (exec_creation c o w Hc) as [-> | (y & _ & ->)].
  { cbn [fst snd]. by apply IH. }
  rewrite run_create.
  destruct (IH (create y o w).1.2 (create y o w).2 Hcs) as (Hps & Hold & Hnew).
  pose proof (create_objects y o w) as Hobj.
  assert (Hlen : length (objects (create y o w).2)
                 = S (length (objects w))).
  { rewrite Hobj, length_app. cbn. lia. }
  rewrite Hlen in Hps, Hold.
  split; [|split].
  - cbn [length]. by rewrite <- cons_seq, <- Hps.
  - intros q Hq. rewrite Hold by lia. rewrite Hobj.
    by apply lookup_app_l.
  - constructor; [|exact Hnew].
    unfold ownersAt. rewrite Hold by lia.
    apply (proj1 (create_result y o w)).
Qed.

End Creations.

(** ** Dropping the external references *)

Lemma releaseAll_lookup_notin (ps : list Ptr) (w : World) (q : Ptr) :
  q ∉ ps -> objects (releaseAll ps w) !! q = objects w !! q.
Proof.
  induction ps as [|p ps IH]; intros Hq; [done|].
  apply not_elem_of_cons in Hq as [Hne Hq].
  cbn. unfold drop. rewrite list_lookup_alter_ne by done. by apply IH.
Qed.

Lemma releaseAll_owners_in (ps : list Ptr) (w : World) (q : Ptr) (n : nat) :
  NoDup ps -> q ∈ ps -> ownersAt w q = Some n ->
  ownersAt (releaseAll ps w) q = Some (Nat.pred n).
Proof.
  induction ps as [|p ps IH]; intros Hnd Hq Hn; [by apply elem_of_nil in Hq|].
  apply NoDup_cons in Hnd as [Hp Hnd].
  change (releaseAll (p :: ps) w) with (release p (releaseAll ps w)).
  apply elem_of_cons in Hq as [-> | Hq].
  - apply release_owners. unfold ownersAt.
    by rewrite releaseAll_lookup_notin.
  - assert (p <> q) by (intros ->; done).
    unfold ownersAt, release, drop. cbn [objects].
    rewrite list_lookup_alter_ne by done. by apply IH.
Qed.

Lemma alive_lt (w : World) (q : Ptr) :
  alive w q -> (q < length (objects w))%nat.
Proof.
  unfold alive, expired. intros H. apply lookup_lt_is_Some.
  destruct (objects w !! q); [by eexists | discriminate].
Qed.

Lemma alive_lookup (w w' : World) (q : Ptr) :
  objects w' !! q = objects w !! q -> alive w q -> alive w' q.
Proof. unfold alive, expired. by intros ->. Qed.

Lemma exec_clear (o : Orchestrator) (w : World) :
  exec CallClear o w = (None, mkOrchestrator (clear (manager o) w).1 (phase o), w).
Proof. reflexivity. Qed.

(** C2. In every state [clear()] leaves the world as it is (no resource is
    destroyed or modified) and the Manager's other members as they are, and
    each of the three collections afterwards is the collection before without
    its expired entries: every remaining entry is alive and every live entry
    is still there, in place.  After N creations on a managed Manager whose
    entries were all alive, the registry has N more entries; once the returned
    pointers have all been dropped they are all expired, and [clear()] then
    gives back exactly the Manager from before the creations, so it removes
    those N entries and nothing else. *)
Theorem clear_sweeps_exactly_the_expired :
  forall (this : Manager) (w0 : World)
         (o : Orchestrator) (w : World) (cs : list Call),
    mManageResources (manager o) = true ->
    forallb isCreation cs = true ->
    Forall (alive w) (tracked (manager o)) ->
    (clear this w0).2 = w0 /\
    sameContext this (clear this w0).1 /\
    sweptFrom w0 (mManagedTensors this) (mManagedTensors (clear this w0).1) /\
    sweptFrom w0 (mManagedSequences this)
      (mManagedSequences (clear this w0).1) /\
    sweptFrom w0 (mManagedAlgorithms this)
      (mManagedAlgorithms (clear this w0).1) /\
    length (tracked (manager (run (map Invoke cs) o w).1.2))
      = (length (tracked (manager o))
         + length (run (map Invoke cs) o w).1.1)%nat /\
    Forall
      (fun p =>
         expired
           (objects
              (releaseAll (run (map Invoke cs) o w).1.1
                 (run (map Invoke cs) o w).2)) p = true)
      (run (map Invoke cs) o w).1.1 /\
    exec CallClear (run (map Invoke cs) o w).1.2
      (releaseAll (run (map Invoke cs) o w).1.1 (run (map Invoke cs) o w).2)
    = (None, o,
       releaseAll (run (map Invoke cs) o w).1.1 (run (map Invoke cs) o w).2).
Proof.
  intros * Hm Hcs Halive.
  split; [reflexivity|]. split; [by repeat split|].
  split; [apply sweep_sweptFrom|]. split; [apply sweep_sweptFrom|].
  split; [apply sweep_sweptFrom|].
  split; [by apply run_creations_count|].
  destruct (run_creations_store cs o w Hcs) as (Hps & Hold & Hnew).
  pose proof (run_creations_phase cs o w Hcs) as Hphase.
  pose proof (run_context (map Invoke cs) o w) as Hctx.
  pose proof (run_creations_registry cs o w Hm Hcs) as Hreg.
  set (ps := (run (map Invoke cs) o w).1.1) in *.
  set (o1 := (run (map Invoke cs) o w).1.2) in *.
  set (w1 := (run (map Invoke cs) o w).2) in *.
  assert (Hnd : NoDup ps) by (rewrite Hps; apply NoDup_seq).
  assert (Hexp : Forall (fun p => expired (objects (releaseAll ps w1)) p = true)
                   ps).
  { apply Forall_forall. intros p Hp.
    rewrite Forall_forall in Hnew.
    pose proof (releaseAll_owners_in ps w1 p 1%nat Hnd Hp (Hnew p Hp)) as H0.
    by rewrite (expired_owners _ _ _ H0). }
  split; [exact Hexp|].
  assert (Hkeep : forall q, q ∈ tracked (manager o) ->
                            alive (releaseAll ps w1) q).
  { intros q Hq. rewrite Forall_forall in Halive.
    pose proof (Halive q Hq) as Hq'. pose proof (alive_lt w q Hq') as Hlt.
    apply (alive_lookup w); [|done].
    rewrite releaseAll_lookup_notin; [by apply Hold|].
    rewrite Hps, elem_of_seq. lia. }
  rewrite exec_clear. destruct o as [this0 ph0]. cbn in Hphase.
  rewrite Hphase.
  cut ((clear (manager o1) (releaseAll ps w1)).1 = this0); [by intros ->|].
  apply manager_eq.
  - apply sameContext_sym.
    eapply sameContext_trans; [exact Hctx|]. by repeat split.
  - intros k. destruct (Hreg k) as (added & Ha & Hin).
    assert (Hsw : sweep (releaseAll ps w1) (registry k (manager o1))
                  = registry k this0).
    { rewrite Ha. unfold sweep. rewrite filter_app.
      rewrite filter_all, filter_none; [by rewrite app_nil_r | |].
      - eapply Forall_impl; [exact Hin|]. intros p Hp.
        rewrite Forall_forall in Hexp. unfold alive. by rewrite (Hexp p Hp).
      - apply Forall_forall. intros q Hq. apply Hkeep.
        by apply (registry_tracked k). }
    destruct k; exact Hsw.
Qed.

Lemma clear_sweeps_exactly_the_expired_witness :
  mManageResources (manager managedManager) = true /\
  forallb isCreation
    [CallTensorT [x01; x02]%byte eDevice;
     CallSequence 0 0;
     CallAlgorithm [0%nat] [] Workgroup_unset [x00]%byte [x00]%byte] = true /\
  Forall (alive emptyWorld) (tracked (manager managedManager)) /\
  length
    (tracked
       (manager
          (run (map Invoke
                  [CallTensorT [x01; x02]%byte eDevice;
                   CallSequence 0 0;
                   CallAlgorithm [0%nat] [] Workgroup_unset
                     [x00]%byte [x00]%byte])
             managedManager emptyWorld).1.2)) = 3%nat /\
  (run (map Invoke
          [CallTensorT [x01; x02]%byte eDevice;
           CallSequence 0 0;
           CallAlgorithm [0%nat] [] Workgroup_unset [x00]%byte [x00]%byte])
     managedManager emptyWorld).1.1 = [0; 1; 2]%nat /\
  exec CallClear
    (run (map Invoke
            [CallTensorT [x01; x02]%byte eDevice;
             CallSequence 0 0;
             CallAlgorithm [0%nat] [] Workgroup_unset [x00]%byte [x00]%byte])
       managedManager emptyWorld).1.2
    (releaseAll
       (run (map Invoke
               [CallTensorT [x01; x02]%byte eDevice;
                CallSequence 0 0;
                CallAlgorithm [0%nat] [] Workgroup_unset
                  [x00]%byte [x00]%byte])
          managedManager emptyWorld).1.1
       (run (map Invoke
               [CallTensorT [x01; x02]%byte eDevice;
                CallSequence 0 0;
                CallAlgorithm [0%nat] [] Workgroup_unset
                  [x00]%byte [x00]%byte])
          managedManager emptyWorld).2)
  = (None, managedManager,
     releaseAll
       (run (map Invoke
               [CallTensorT [x01; x02]%byte eDevice;
                CallSequence 0 0;
                CallAlgorithm [0%nat] [] Workgroup_unset
                  [x00]%byte [x00]%byte])
          managedManager emptyWorld).1.1
       (run (map Invoke
               [CallTensorT [x01; x02]%byte eDevice;
                CallSequence 0 0;
                CallAlgorithm [0%nat] [] Workgroup_unset
                  [x00]%byte [x00]%byte])
          managedManager emptyWorld).2).
Proof.
  split; [reflexivity|]. split; [reflexivity|]. split; [constructor|].
  split; [reflexivity|]. split; [reflexivity|].
  apply (clear_sweeps_exactly_the_expired Manager_init emptyWorld
           managedManager emptyWorld
           [CallTensorT [x01; x02]%byte eDevice;
            CallSequence 0 0;
            CallAlgorithm [0%nat] [] Workgroup_unset [x00]%byte [x00]%byte]);
    [reflexivity | reflexivity | constructor].
Defined.

(** ** Several Managers *)

Lemma exec_frame (c : Call) (o : Orchestrator) (w : World) (q : Ptr) :
  (q < length (objects w))%nat -> q ∉ tracked (manager o) ->
  objects (exec c o w).2 !! q = objects w !! q.
Proof.
  intros Hq Hnot. destruct (isCreation c) eqn:Hc.
  - destruct (exec_creation c o w Hc) as [-> | (y & _ & ->)]; [done|].
    rewrite create_objects. by apply lookup_app_l.
  - destruct c; try discriminate Hc; cbn; [done|].
    unfold destroy. destruct (phase o); [|done]. cbn.
    unfold tracked in Hnot. rewrite !not_elem_of_app in Hnot.
    destruct Hnot as (Ht & Hs & Ha).
    by rewrite !drain_lookup_notin.
Qed.

Lemma elem_of_tracked_register (k : Kind) (p q : Ptr) (this : Manager) :
  q ∈ tracked (register k p this) <-> q ∈ tracked this \/ q = p.
Proof.
  unfold tracked.
  destruct k; cbn; rewrite !elem_of_app, list_elem_of_singleton; tauto.
Qed.

Lemma exec_tracked (c : Call) (o : Orchestrator) (w : World) (q : Ptr) :
  q ∈ tracked (manager (exec c o w).1.2) ->
  q ∈ tracked (manager o) \/
  (q = length (objects w) /\
   (q < length (objects (exec c o w).2))%nat).
Proof.
  destruct (isCreation c) eqn:Hc.
  - destruct (exec_creation c o w Hc) as [-> | (y & _ & ->)]; [by left|].
    rewrite create_objects, length_app. cbn [create fst snd manager].
    destruct (mManageResources (manager o)); [|by left].
    intros Hq. apply elem_of_tracked_register in Hq as [Hq | ->];
      [by left | right].
    split; [done | cbn; lia].
  - destruct c; try discriminate Hc; cbn.
    + intros Hq. left. unfold tracked in *. cbn in Hq.
      rewrite !elem_of_app in *. unfold sweep in Hq.
      rewrite !list_elem_of_filter in Hq. tauto.
    + unfold destroy. destruct (phase o); [|by left].
      cbn. unfold tracked. cbn. intros Hq. by apply elem_of_nil in Hq.
Qed.

Lemma callOn_other (this other : nat) (c : Call) (sys : System) :
  this <> other ->
  managers (callOn this c sys).2 !! other = managers sys !! other.
Proof.
  intros Hne. unfold callOn. destruct (managers sys !! this) as [o|]; [|done].
  destruct (exec c o (world sys)) as [[r o'] w']. cbn.
  by rewrite lookup_insert_ne.
Qed.

Lemma callOn_this (this : nat) (c : Call) (sys : System) (o : Orchestrator) :
  managers sys !! this = Some o ->
  managers (callOn this c sys).2 !! this = Some (exec c o (world sys)).1.2 /\
  world (callOn this c sys).2 = (exec c o (world sys)).2.
Proof.
  intros Ho. unfold callOn. rewrite Ho.
  destruct (exec c o (world sys)) as [[r o'] w']. cbn.
  by rewrite lookup_insert_eq.
Qed.

Lemma callOn_absent (this : nat) (c : Call) (sys : System) :
  managers sys !! this = None -> (callOn this c sys).2 = sys.
Proof. intros Ho. unfold callOn. by rewrite Ho. Qed.

Lemma callOn_independent (this : nat) (c : Call) (sys : System) :
  independent sys -> independent (callOn this c sys).2.
Proof.
  intros [Hin Hdis].
  destruct (managers sys !! this) as [o|] eqn:Ho;
    [|by rewrite callOn_absent].
  destruct (callOn_this this c sys o Ho) as [Hthis Hw].
  pose proof (exec_length c o (world sys)) as Hlen.
  assert (Hnew : forall q, q ∈ tracked (manager (exec c o (world sys)).1.2) ->
            q ∈ tracked (manager o) \/
            (q = length (objects (world sys)) /\
             (q < length (objects (exec c o (world sys)).2))%nat))
    by apply exec_tracked.
  pose proof (Hin this o Ho) as Hino. rewrite Forall_forall in Hino.
  split.
  - intros a oa Ha. rewrite Hw. apply Forall_forall. intros q Hq.
    destruct (decide (a = this)) as [->|Hne].
    + rewrite Hthis in Ha. injection Ha as <-.
      destruct (Hnew q Hq) as [Hq'|[_ Hq']]; [|done].
      specialize (Hino q Hq'). lia.
    + rewrite callOn_other in Ha by done.
      pose proof (Hin a oa Ha) as Hina. rewrite Forall_forall in Hina.
      specialize (Hina q Hq). lia.
  - intros a b oa ob q Hab Ha Hb Hqa Hqb.
    destruct (decide (a = this)) as [->|Hath];
      destruct (decide (b = this)) as [->|Hbth]; try done.
    + rewrite Hthis in Ha. injection Ha as <-.
      rewrite callOn_other in Hb by done.
      pose proof (Hin b ob Hb) as Hinb. rewrite Forall_forall in Hinb.
      destruct (Hnew q Hqa) as [Hq'|[-> _]].
      * by apply (Hdis this b o ob q).
      * specialize (Hinb _ Hqb). lia.
    + rewrite Hthis in Hb. injection Hb as <-.
      rewrite callOn_other in Ha by done.
      pose proof (Hin a oa Ha) as Hina. rewrite Forall_forall in Hina.
      destruct (Hnew q Hqb) as [Hq'|[-> _]].
      * by apply (Hdis a this oa o q).
      * specialize (Hina _ Hqa). lia.
    + rewrite callOn_other in Ha, Hb by done.
      by apply (Hdis a b oa ob q).
Qed.

Lemma callOn_tracked_cells (this other : nat) (c : Call) (sys : System)
    (ob : Orchestrator) (q : Ptr) :
  this <> other -> independent sys ->
  managers sys !! other = Some ob -> q ∈ tracked (manager ob) ->
  objects (world (callOn this c sys).2) !! q = objects (world sys) !! q.
Proof.
  intros Hne [Hin Hdis] Hob Hq.
  destruct (managers sys !! this) as [o|] eqn:Ho;
    [|by rewrite callOn_absent].
  destruct (callOn_this this c sys o Ho) as [_ ->].
  pose proof (Hin other ob Hob) as Hino. rewrite Forall_forall in Hino.
  apply exec_frame; [by apply Hino|].
  intros Hq'. by apply (Hdis this other o ob q).
Qed.

Lemma callAllOn_cons (this : nat) (c : Call) (cs : list Call) (sys : System) :
  callAllOn this (c :: cs) sys =
    ((callOn this c sys).1 :: (callAllOn this cs (callOn this c sys).2).1,
     (callAllOn this cs (callOn this c sys).2).2).
Proof.
  cbn [callAllOn]. destruct (callOn this c sys) as [r sys1]. cbn [fst snd].
  by destruct (callAllOn this cs sys1).
Qed.

Lemma callAllOn_others (this other : nat) (cs : list Call) (sys : System) :
  this <> other -> independent sys ->
  managers (callAllOn this cs sys).2 !! other = managers sys !! other /\
  independent (callAllOn this cs sys).2 /\
  (forall ob q, managers sys !! other = Some ob -> q ∈ tracked (manager ob) ->
     objects (world (callAllOn this cs sys).2) !! q
       = objects (world sys) !! q).
Proof.
  intros Hne. revert sys. induction cs as [|c cs IH]; intros sys Hind.
  - split; [done|]. by split.
  - rewrite callAllOn_cons. cbn [fst snd].
    pose proof (callOn_independent this c sys Hind) as Hind1.
    pose proof (callOn_other this other c sys Hne) as Hother.
    destruct (IH _ Hind1) as (Hm & Hind2 & Hcells).
    split; [congruence|]. split; [done|].
    intros ob q Hob Hq. rewrite (Hcells ob q) by congruence.
    by apply (callOn_tracked_cells this other c sys ob q).
Qed.

Lemma exec_log_own (c : Call) (o : Orchestrator) (w : World) (h : Handle) :
  h ∈ handlesDestroyed (exec c o w).2 ->
  h ∈ handlesDestroyed w \/
  mDevice (manager o) = Some h \/ mInstance (manager o) = Some h.
Proof.
  destruct (isCreation c) eqn:Hc.
  - destruct (exec_creation c o w Hc) as [-> | (y & _ & ->)]; by left.
  - destruct c; try discriminate Hc; cbn; [by left|].
    unfold destroy. destruct (phase o); [|by left]. cbn.
    unfold destroyHandle.
    destruct (mFreeInstance (manager o)), (mInstance (manager o)) as [i|],
             (mFreeDevice (manager o)), (mDevice (manager o)) as [d|];
      rewrite ?elem_of_app, ?list_elem_of_singleton;
      intuition (subst; auto).
Qed.

Lemma callAllOn_absent (this : nat) (cs : list Call) (sys : System) :
  managers sys !! this = None -> (callAllOn this cs sys).2 = sys.
Proof.
  intros Ho. induction cs as [|c cs IH]; [done|].
  rewrite callAllOn_cons. cbn [snd]. by rewrite callOn_absent.
Qed.

Lemma callAllOn_log (this : nat) (cs : list Call) (sys : System)
    (o : Orchestrator) (h : Handle) :
  managers sys !! this = Some o ->
  h ∈ handlesDestroyed (world (callAllOn this cs sys).2) ->
  h ∈ handlesDestroyed (world sys) \/
  mDevice (manager o) = Some h \/ mInstance (manager o) = Some h.
Proof.
  revert sys o. induction cs as [|c cs IH]; intros sys o Ho Hh; [by left|].
  rewrite callAllOn_cons in Hh. cbn [snd] in Hh.
  destruct (callOn_this this c sys o Ho) as [Ho1 Hw1].
  pose proof (exec_context c o (world sys)) as (HI & _ & _ & HD & _).
  destruct (IH _ _ Ho1 Hh) as [Hh1 | [Hh1 | Hh1]].
  - rewrite Hw1 in Hh1. by apply exec_log_own in Hh1.
  - right. left. congruence.
  - right. right. congruence.
Qed.

Lemma callOn_agree (this : nat) (c : Call) (s1 s2 : System) :
  managers s1 !! this = managers s2 !! this -> world s1 = world s2 ->
  (callOn this c s1).1 = (callOn this c s2).1 /\
  managers (callOn this c s1).2 !! this
    = managers (callOn this c s2).2 !! this /\
  world (callOn this c s1).2 = world (callOn this c s2).2.
Proof.
  intros Hm Hw. unfold callOn. rewrite Hm, Hw.
  destruct (managers s2 !! this) as [o|] eqn:Ho.
  - destruct (exec c o (world s2)) as [[r o'] w']. cbn.
    by rewrite !lookup_insert_eq.
  - cbn. by rewrite Hm, Ho.
Qed.

Lemma callAllOn_agree (this : nat) (cs : list Call) (s1 s2 : System) :
  managers s1 !! this = managers s2 !! this -> world s1 = world s2 ->
  (callAllOn this cs s1).1 = (callAllOn this cs s2).1 /\
  managers (callAllOn this cs s1).2 !! this
    = managers (callAllOn this cs s2).2 !! this /\
  world (callAllOn this cs s1).2 = world (callAllOn this cs s2).2.
Proof.
  revert s1 s2. induction cs as [|c cs IH]; intros s1 s2 Hm Hw; [done|].
  rewrite !callAllOn_cons. cbn [fst snd].
  destruct (callOn_agree this c s1 s2 Hm Hw) as (Hr & Hm1 & Hw1).
  destruct (IH _ _ Hm1 Hw1) as (Hrs & Hm2 & Hw2).
  split; [congruence|]. by split.
Qed.

Lemma withOthers_this (ms : gmap nat Orchestrator) (this : nat)
    (sys : System) :
  managers (withOthers ms this sys) !! this = managers sys !! this /\
  world (withOthers ms this sys) = world sys.
Proof.
  split; [|done]. unfold withOthers. cbn.
  destruct (managers sys !! this);
    [by rewrite lookup_insert_eq | by rewrite lookup_delete_eq].
Qed.

(** C8. For independent Managers, every sequence of factory, [sequence],
    [clear] and [destroy] calls on one of them leaves every other Manager
    object exactly as it was (registry collections and all other members);
    the resources the other Manager tracks keep their payload, are released
    or not as they were, and those that were alive stay alive; every native
    handle the calls destroy is the device or the instance of the Manager
    they are made on; and the Managers stay independent.  What the calls
    return and do to their own Manager and to the world is the same whatever
    the other Managers hold, so no call observes what another Manager
    tracks. *)
Theorem managers_are_independent :
  forall (this other : nat) (cs : list Call) (sys : System)
         (ms : gmap nat Orchestrator),
    this <> other ->
    independent sys ->
    managers (callAllOn this cs sys).2 !! other = managers sys !! other /\
    sameTrackedResources other sys (callAllOn this cs sys).2 /\
    destroysOwnHandlesOnly this sys (callAllOn this cs sys).2 /\
    independent (callAllOn this cs sys).2 /\
    (callAllOn this cs (withOthers ms this sys)).1
      = (callAllOn this cs sys).1 /\
    managers (callAllOn this cs (withOthers ms this sys)).2 !! this
      = managers (callAllOn this cs sys).2 !! this /\
    world (callAllOn this cs (withOthers ms this sys)).2
      = world (callAllOn this cs sys).2.
Proof.
  intros * Hne Hind.
  destruct (callAllOn_others this other cs sys Hne Hind)
    as (H1 & H3 & Hcells).
  destruct (withOthers_this ms this sys) as [Hm Hw].
  destruct (callAllOn_agree this cs _ _ Hm Hw) as (H4 & H5 & H6).
  split; [exact H1|]. split; [|split; [|split; [exact H3|]]].
  - unfold sameTrackedResources.
    destruct (managers sys !! other) as [ob|] eqn:Hob; [|done]. split.
    + apply Forall_forall. intros q Hq. by rewrite (Hcells ob q).
    + apply Forall_forall. intros q [Hq Hin]%list_elem_of_filter.
      apply (alive_lookup (world sys)); [|done]. by apply (Hcells ob q).
  - unfold destroysOwnHandlesOnly.
    destruct (managers sys !! this) as [o|] eqn:Ho.
    + apply Forall_forall. intros h Hh. by apply (callAllOn_log this cs sys o).
    + by rewrite callAllOn_absent.
  - split; [exact H4|]. split; [exact H5 | exact H6].
Qed.

Lemma twoFreshManagers_independent : independent twoFreshManagers.
Proof.
  assert (Hempty : forall a o, managers twoFreshManagers !! a = Some o ->
                               tracked (manager o) = []).
  { intros a o. unfold twoFreshManagers. cbn [managers].
    rewrite !lookup_insert_Some, lookup_empty.
    intros [[_ <-] | [_ [[_ <-] | [_ H]]]]; [done | done | discriminate]. }
  split.
  - intros a o Ho. rewrite (Hempty a o Ho). constructor.
  - intros a b oa ob p _ Ha _ Hp. rewrite (Hempty a oa Ha) in Hp.
    by apply elem_of_nil in Hp.
Qed.

Lemma twoManagers_independent : independent twoManagers.
Proof.
  unfold twoManagers.
  apply callOn_independent, callOn_independent, twoFreshManagers_independent.
Qed.

Lemma managers_are_independent_witness :
  0%nat <> 1%nat /\
  independent twoManagers /\
  (tracked <$> (manager <$> managers twoManagers !! 0%nat)) = Some [0%nat] /\
  (tracked <$> (manager <$> managers twoManagers !! 1%nat)) = Some [1%nat] /\
  alive (world twoManagers) 1 /\
  managers
    (callAllOn 0
       [CallAlgorithm [1%nat] [119734787] Workgroup_unset [x00]%byte
          [x00]%byte;
        CallClear; CallDestroy]
       twoManagers).2 !! 1%nat
    = managers twoManagers !! 1%nat /\
  sameTrackedResources 1 twoManagers
    (callAllOn 0
       [CallAlgorithm [1%nat] [119734787] Workgroup_unset [x00]%byte
          [x00]%byte;
        CallClear; CallDestroy]
       twoManagers).2 /\
  handlesDestroyed
    (world
       (callAllOn 0
          [CallAlgorithm [1%nat] [119734787] Workgroup_unset [x00]%byte
             [x00]%byte;
           CallClear; CallDestroy]
          twoManagers).2) = [3; 1]%nat.
Proof.
  split; [discriminate|]. split; [exact twoManagers_independent|].
  split; [reflexivity|]. split; [reflexivity|]. split; [reflexivity|].
  pose proof (managers_are_independent 0 1
                [CallAlgorithm [1%nat] [119734787] Workgroup_unset
                   [x00]%byte [x00]%byte;
                 CallClear; CallDestroy]
                twoManagers ∅ ltac:(discriminate) twoManagers_independent)
    as (H1 & H2 & _).
  split; [exact H1|]. split; [exact H2 | reflexivity].
Defined.

(** * Runs of the factory methods *)

Lemma factories_are_creations (cs : list Call) :
  forallb isFactory cs = true -> forallb isCreation cs = true.
Proof.
  induction cs as [|c cs IH]; [done|]. cbn [forallb].
  intros [Hc Hcs]%andb_prop. rewrite IH by done.
  by destruct c.
Qed.

Lemma create_log (x : Payload) (o : Orchestrator) (w : World) :
  handlesDestroyed (create x o w).2 = handlesDestroyed w.
Proof. reflexivity. Qed.

Lemma run_factories_results (cs : list Call) (o : Orchestrator) (w : World) :
  forallb isFactory cs = true ->
  length (run (map Invoke cs) o w).1.1 = length cs /\
  length (objects (run (map Invoke cs) o w).2)
    = (length (objects w) + length cs)%nat /\
  handlesDestroyed (run (map Invoke cs) o w).2 = handlesDestroyed w.
Proof.
  revert o w. induction cs as [|c cs IH]; intros o w Hcs.
  { cbn. split; [done|]. split; [lia | done]. }
  cbn [forallb] in Hcs. apply andb_prop in Hcs as [Hc Hcs].
  cbn [map]. rewrite run_cons. cbn [fst snd step].
  destruct (exec_factory c o w Hc) as (y & _ & ->).
  rewrite run_create.
  destruct (IH (create y o w).1.2 (create y o w).2 Hcs) as (Hn & Hlen & Hlog).
  rewrite create_objects, length_app in Hlen. cbn [length] in *.
  rewrite Hn, Hlen, Hlog, create_log. split; [done|]. split; [lia | done].
Qed.

(** X2. Every factory call returns a new resource.  Over a run of factory
    calls the returned pointers are as many as the calls and name the control
    blocks created by the run, one after the other: none of them named an
    object before the run, no two of them are the same, and at the end of the
    run every one of them is still alive. *)
Theorem factories_return_fresh_resources :
  forall (cs : list Call) (o : Orchestrator) (w : World),
    forallb isFactory cs = true ->
    (run (map Invoke cs) o w).1.1
      = seq (length (objects w)) (length cs) /\
    NoDup (run (map Invoke cs) o w).1.1 /\
    Forall (fun p => objects w !! p = None) (run (map Invoke cs) o w).1.1 /\
    Forall (alive (run (map Invoke cs) o w).2) (run (map Invoke cs) o w).1.1 /\
    length (objects (run (map Invoke cs) o w).2)
      = (length (objects w) + length cs)%nat.
Proof.
  intros cs o w Hcs.
  destruct (run_factories_results cs o w Hcs) as (Hn & Hlen & _).
  destruct (run_creations_store cs o w (factories_are_creations cs Hcs))
    as (Hps & _ & Hown).
  rewrite Hn in Hps.
  split; [exact Hps|]. split; [rewrite Hps; apply NoDup_seq|].
  split; [|split; [|exact Hlen]].
  - rewrite Hps. apply Forall_forall. intros p [Hp _]%elem_of_seq.
    by apply lookup_ge_None.
  - eapply Forall_impl; [exact Hown|]. intros p Hp. unfold alive.
    by rewrite (expired_owners _ _ _ Hp).
Qed.

Lemma factories_return_fresh_resources_witness :
  forallb isFactory threeFactoryCalls = true /\
  (run (map Invoke threeFactoryCalls) managedManager worldWithTensor).1.1
    = [1; 2; 3]%nat.
Proof.
  split; [reflexivity|].
  apply (factories_return_fresh_resources threeFactoryCalls managedManager
           worldWithTensor).
  reflexivity.
Defined.

(** X3. The factory methods only construct.  Over a run of factory calls
    every resource that existed before is still there unchanged, with the
    payload it was constructed with and released or not as it was, and no
    native handle is destroyed. *)
Theorem factories_leave_existing_resources :
  forall (cs : list Call) (o : Orchestrator) (w : World),
    forallb isFactory cs = true ->
    object <$> take (length (objects w)) (objects (run (map Invoke cs) o w).2)
      = object <$> objects w /\
    handlesDestroyed (run (map Invoke cs) o w).2 = handlesDestroyed w.
Proof.
  intros cs o w Hcs.
  destruct (run_factories_results cs o w Hcs) as (_ & _ & Hlog).
  destruct (run_creations_store cs o w (factories_are_creations cs Hcs))
    as (_ & Hold & _).
  split; [|exact Hlog].
  apply list_eq. intros q. rewrite !list_lookup_fmap.
  destruct (decide (q < length (objects w))%nat) as [Hq|Hq].
  - rewrite lookup_take_lt by done. by rewrite Hold.
  - rewrite lookup_take_ge by lia.
    by rewrite (lookup_ge_None_2 (objects w) q) by lia.
Qed.

Lemma factories_leave_existing_resources_witness :
  forallb isFactory threeFactoryCalls = true /\
  object <$>
    take 1 (objects
              (run (map Invoke threeFactoryCalls) managedManager
                 worldWithTensor).2)
    = object <$> objects worldWithTensor.
Proof.
  split; [reflexivity|].
  apply (factories_leave_existing_resources threeFactoryCalls managedManager
           worldWithTensor).
  reflexivity.
Defined.

Lemma returnedBy_cons (k : Kind) (c : Call) (cs : list Call) (p : Ptr)
    (ps : list Ptr) (k' : Kind) :
  factoryKind c = Some k' ->
  returnedBy k (c :: cs) (p :: ps)
    = (if decide (k = k') then [p] else []) ++ returnedBy k cs ps.
Proof.
  intros Hc. unfold returnedBy. cbn [zip zip_with].
  rewrite filter_cons. cbn [fst]. rewrite Hc.
  destruct (decide (Some k' = Some k)) as [[= ->]|Hne].
  - by rewrite decide_True.
  - rewrite decide_False; [done|]. by intros ->.
Qed.

Lemma run_factories_registry (k : Kind) (cs : list Call) (o : Orchestrator)
    (w : World) :
  mManageResources (manager o) = true ->
  forallb isFactory cs = true ->
  registry k (manager (run (map Invoke cs) o w).1.2)
    = registry k (manager o)
        ++ returnedBy k cs (run (map Invoke cs) o w).1.1.
Proof.
  revert o w. induction cs as [|c cs IH]; intros o w Hm Hcs.
  { cbn. by rewrite app_nil_r. }
  cbn [forallb] in Hcs. apply andb_prop in Hcs as [Hc Hcs].
  cbn [map]. rewrite run_cons. cbn [fst snd step].
  destruct (exec_factory c o w Hc) as (y & Hk & ->).
  rewrite run_create.
  destruct (create_manager y o w Hm) as [Hreg Hm'].
  rewrite (IH (create y o w).1.2 (create y o w).2 Hm' Hcs).
  rewrite Hreg, registry_register, (returnedBy_cons k c cs _ _ _ Hk).
  by rewrite <- app_assoc.
Qed.

Lemma returnedBy_sequence (cs : list Call) (ps : list Ptr) :
  returnedBy KSequence cs ps = [].
Proof.
  unfold returnedBy.
  rewrite (filter_none _ (zip cs ps)); [done|].
  apply Forall_forall. intros [c p] _. cbn. by destruct c.
Qed.

(** X1. The registry records the factory calls in call order.  Over a run of
    factory calls on a Manager with resource management enabled,
    [mManagedTensors] ends as it began followed by the pointers the tensor
    calls returned, in call order, and [mManagedAlgorithms] as it began
    followed by the pointers the algorithm calls returned; with resource
    management disabled both end as they began.  [mManagedSequences] is never
    touched by a factory method of the header. *)
Theorem registry_records_calls_in_order :
  forall (cs : list Call) (o : Orchestrator) (w : World) (k : Kind),
    forallb isFactory cs = true ->
    registry k (manager (run (map Invoke cs) o w).1.2)
      = registry k (manager o)
          ++ (if mManageResources (manager o)
              then returnedBy k cs (run (map Invoke cs) o w).1.1 else []) /\
    mManagedSequences (manager (run (map Invoke cs) o w).1.2)
      = mManagedSequences (manager o).
Proof.
  intros cs o w k Hcs.
  destruct (mManageResources (manager o)) eqn:Hm.
  - split; [by apply run_factories_registry|].
    pose proof (run_factories_registry KSequence cs o w Hm Hcs) as H.
    rewrite returnedBy_sequence, app_nil_r in H. exact H.
  - rewrite (run_factories_unmanaged cs o w Hcs Hm).
    by rewrite app_nil_r.
Qed.

Lemma registry_records_calls_in_order_witness :
  forallb isFactory threeFactoryCalls = true /\
  mManagedTensors
    (manager
       (run (map Invoke threeFactoryCalls) managedManager
          worldWithTensor).1.2) = [1; 3]%nat /\
  mManagedAlgorithms
    (manager
       (run (map Invoke threeFactoryCalls) managedManager
          worldWithTensor).1.2) = [2]%nat.
Proof.
  split; [reflexivity|].
  split.
  - apply (registry_records_calls_in_order threeFactoryCalls managedManager
             worldWithTensor KTensor).
    reflexivity.
  - apply (registry_records_calls_in_order threeFactoryCalls managedManager
             worldWithTensor KAlgorithm).
    reflexivity.
Defined.

Lemma tracked_register_perm (k : Kind) (p : Ptr) (this : Manager) :
  tracked (register k p this) ≡ₚ p :: tracked this.
Proof.
  unfold tracked. destruct k; cbn.
  - by rewrite (Permutation_app_comm (mManagedTensors this) [p]).
  - rewrite (Permutation_app_comm (mManagedSequences this) [p]). cbn.
    symmetry. apply Permutation_middle.
  - rewrite (Permutation_app_comm (mManagedAlgorithms this) [p]). cbn.
    rewrite !app_assoc. symmetry. apply Permutation_middle.
Qed.

Lemma create_registryWf (x : Payload) (o : Orchestrator) (w : World) :
  registryWf (manager o) w ->
  registryWf (manager (create x o w).1.2) (create x o w).2.
Proof.
  intros [Hnd Hin]. unfold registryWf.
  rewrite create_objects, length_app. cbn [create fst snd manager length].
  destruct (mManageResources (manager o)).
  - split.
    + rewrite tracked_register_perm. apply NoDup_cons. split; [|done].
      intros Hp. rewrite Forall_forall in Hin. specialize (Hin _ Hp).
      cbn in Hin. lia.
    + apply Forall_forall. intros q [Hq | ->]%elem_of_tracked_register.
      * rewrite Forall_forall in Hin. specialize (Hin _ Hq). lia.
      * cbn. lia.
  - split; [done|]. eapply Forall_impl; [exact Hin|]. intros q Hq. cbn in *. lia.
Qed.

(** X4. The factory methods keep the registry in good order.  If no resource
    is tracked twice and every entry names a control block of the store, the
    same holds after every run of factory calls: a factory method never
    registers a resource a second time and never registers anything but the
    resource it has just constructed. *)
Theorem factories_keep_registry_in_order :
  forall (cs : list Call) (o : Orchestrator) (w : World),
    forallb isFactory cs = true ->
    registryWf (manager o) w ->
    registryWf (manager (run (map Invoke cs) o w).1.2)
      (run (map Invoke cs) o w).2.
Proof.
  intros cs. induction cs as [|c cs IH]; intros o w Hcs Hwf; [done|].
  cbn [forallb] in Hcs. apply andb_prop in Hcs as [Hc Hcs].
  cbn [map]. rewrite run_cons. cbn [fst snd step].
  destruct (exec_factory c o w Hc) as (y & _ & ->).
  apply IH; [done|]. by apply create_registryWf.
Qed.

Lemma factories_keep_registry_in_order_witness :
  forallb isFactory threeFactoryCalls = true /\
  registryWf (manager managedManager) worldWithTensor /\
  NoDup
    (tracked
       (manager
          (run (map Invoke threeFactoryCalls) managedManager
             worldWithTensor).1.2)).
Proof.
  split; [reflexivity|].
  split; [split; constructor|].
  apply (factories_keep_registry_in_order threeFactoryCalls managedManager
           worldWithTensor);
    [reflexivity | split; constructor].
Defined.

Lemma exec_factory_same_resource (c : Call) (o1 o2 : Orchestrator) (w : World) :
  isFactory c = true ->
  mPhysicalDevice (manager o1) = mPhysicalDevice (manager o2) ->
  mDevice (manager o1) = mDevice (manager o2) ->
  (exec c o1 w).1.1 = (exec c o2 w).1.1 /\ (exec c o1 w).2 = (exec c o2 w).2.
Proof.
  intros Hc HP HD. destruct c; try discriminate Hc; cbn; by rewrite ?HP, ?HD.
Qed.

(** X5. Resource management is bookkeeping only.  Two Managers on the same
    physical and logical device, whatever their [mManageResources] flags and
    whatever their registries hold, get the same pointers back from the same
    run of factory calls and leave the same world behind: which resources are
    constructed, and where, does not depend on the flag or on the registry. *)
Theorem factories_construct_regardless_of_registry :
  forall (cs : list Call) (o1 o2 : Orchestrator) (w : World),
    forallb isFactory cs = true ->
    mPhysicalDevice (manager o1) = mPhysicalDevice (manager o2) ->
    mDevice (manager o1) = mDevice (manager o2) ->
    (run (map Invoke cs) o1 w).1.1 = (run (map Invoke cs) o2 w).1.1 /\
    (run (map Invoke cs) o1 w).2 = (run (map Invoke cs) o2 w).2.
Proof.
  intros cs. induction cs as [|c cs IH]; intros o1 o2 w Hcs HP HD; [done|].
  cbn [forallb] in Hcs. apply andb_prop in Hcs as [Hc Hcs].
  cbn [map]. rewrite !run_cons. cbn [fst snd step].
  destruct (exec_factory_same_resource c o1 o2 w Hc HP HD) as [Hr Hw].
  pose proof (exec_context c o1 w) as (_ & _ & HP1 & HD1 & _).
  pose proof (exec_context c o2 w) as (_ & _ & HP2 & HD2 & _).
  rewrite Hr, Hw.
  destruct (IH (exec c o1 w).1.2 (exec c o2 w).1.2 (exec c o2 w).2 Hcs)
    as [Hrs Hws]; [congruence | congruence |].
  by rewrite Hrs, Hws.
Qed.

Lemma factories_construct_regardless_of_registry_witness :
  forallb isFactory threeFactoryCalls = true /\
  mPhysicalDevice (manager managedManager)
    = mPhysicalDevice
        (manager unmanagedManager) /\
  mDevice (manager managedManager)
    = mDevice (manager unmanagedManager) /\
  (run (map Invoke threeFactoryCalls) managedManager worldWithTensor).2
    = (run (map Invoke threeFactoryCalls)
         unmanagedManager
         worldWithTensor).2.
Proof.
  split; [reflexivity|]. split; [reflexivity|]. split; [reflexivity|].
  apply (factories_construct_regardless_of_registry threeFactoryCalls
           managedManager
           unmanagedManager
           worldWithTensor);
    reflexivity.
Defined.
